(** * AeroLog: the ingestion-and-synchronisation engine of [src/App.tsx]

    A shallow embedding of the [App] component: its React state, the
    [isInitialLoad] ref, the auto-save effect with its debounce timer, and
    the handlers that mutate the report collection. The browser pieces the
    component talks to ([localStorage], [setTimeout], [Date.now], [JSON])
    and the two services it imports are modelled as explicit state or as
    the operations of a [Platform].

    Conventions of the model:
    - A handler, or the stretch of an async handler between two [await]s,
      runs to its end; then the component renders and the effects of that
      render run ([commit]). The state updates of one stretch make one
      render.
    - The auto-save effect compares its dependencies as React does: the
      array in [reports] by identity ([reportsRef]), [serverUrl] by value.
    - Time is in milliseconds. [elapse] lets time pass and fires the pending
      timer at its deadline; promises settle as events of their own.
    - The services are not part of the component: what they answer is an
      input ([FetchResult], [Extraction], the flag of [PushSettled]). *)

From Stdlib Require Import Ascii.
From stdpp Require Import base strings list gmap pretty.

Set Warnings "-register-all".

Module AeroLog.

(** ** Data model ([types.ts]) *)

Record FaultItem := {
  fault_time : string;
  phase : string;
  ata : string;
  fault_description : string;
}.

Record FailureItem := {
  failure_time : string;
  source : string;
  identifier : string;
  failure_description : string;
}.

Record FlightReport := {
  id : string;
  aircraftId : string;
  date : string;
  flightNumber : string;
  cityPair : string;
  faults : list FaultItem;
  failures : list FailureItem;
  rawText : option string;
  timestamp : Z;
}.

#[global] Instance FaultItem_eq_dec : EqDecision FaultItem.
Proof. solve_decision. Defined.
#[global] Instance FailureItem_eq_dec : EqDecision FailureItem.
Proof. solve_decision. Defined.
#[global] Instance FlightReport_eq_dec : EqDecision FlightReport.
Proof. solve_decision. Defined.

(** A browser [File]: the handlers only read [file.name]; the content is
    what the extraction service looks at. *)
Record File := {
  name : string;
  content : string;
}.

(** ** Collaborators *)

(** Outcome of [await extractDataFromImage(file)]: the promise resolves with
    a report or rejects. *)
Inductive Extraction :=
| Extracted (newReport : FlightReport)
| ExtractionFailed (err : string).

(** Outcome of [await fetchReportsFromServer(url)]: resolves with an array,
    or with nothing ([null]/[undefined]), or rejects. *)
Inductive FetchResult :=
| Fetched (serverReports : option (list FlightReport))
| FetchRejected (err : string).

(** What the component imports and does not define. [JSON_parse] is [None]
    where [JSON.parse] throws, and [JSON_parse_exception] is then the
    exception it throws, as [console.error] prints it. A text that parses
    is taken at the type the component gives it, [FlightReport[]]: this
    interface covers the texts that [JSON.parse] rejects and those it reads
    as an array of reports. What the loader does with a text that parses to
    anything else is the matter of [loadStored] below. *)
Class Platform := {
  JSON_stringify : list FlightReport → string;
  JSON_parse : string → option (list FlightReport);
  JSON_parse_exception : string → string;
  extractDataFromImage : File → Extraction;
}.

Definition STORAGE_KEY : string := "aerolog_data_v1".
Definition SERVER_URL_KEY : string := "aerolog_server_url".

(** ** Component state *)

Inductive SyncStatus := SyncIdle | SyncSyncing | SyncSynced | SyncError.

(** The closure a pending [setTimeout] callback of the auto-save effect
    holds: the [serverUrl] and [reports] of the render that scheduled it. *)
Record Timer := {
  deadline : N;
  timer_url : string;
  timer_reports : list FlightReport;
}.

(** One call [saveReportsToServer(url, body)], with the instant it was made. *)
Record PushCall := {
  push_at : N;
  push_url : string;
  push_body : list FlightReport;
}.

(** Call-order instrumentation of the extraction service. *)
Inductive AdapterEvent :=
| Invoke (file : File)
| Settle (file : File).

Record App := mkApp {
  (* useState *)
  reports : list FlightReport;
  isProcessing : bool;
  processingStatus : string;
  error : option string;
  serverUrl : string;
  syncStatus : SyncStatus;
  lastSyncTime : option N;
  (* useRef *)
  isInitialLoad : bool;
  (* identity of the array held in [reports]: every [setReports] in the
     component passes a freshly allocated array *)
  reportsRef : nat;
  (* dependency values [reports, serverUrl] of the last run of the
     auto-save effect *)
  effectDeps : option (nat * string);
  (* the timer that effect left pending, if any *)
  timeoutId : option Timer;
  (* browser *)
  localStorage : gmap string string;
  clock : N;
  console : list string;
  alerts : list string;
  (* services *)
  fetchCalls : list string;
  pendingFetches : nat;
  pushCalls : list PushCall;
  pendingPushes : nat;
  adapterLog : list AdapterEvent;
}.

Definition set_reports v s := mkApp v (isProcessing s) (processingStatus s) (error s) (serverUrl s) (syncStatus s) (lastSyncTime s) (isInitialLoad s) (reportsRef s) (effectDeps s) (timeoutId s) (localStorage s) (clock s) (console s) (alerts s) (fetchCalls s) (pendingFetches s) (pushCalls s) (pendingPushes s) (adapterLog s).
Definition set_isProcessing v s := mkApp (reports s) v (processingStatus s) (error s) (serverUrl s) (syncStatus s) (lastSyncTime s) (isInitialLoad s) (reportsRef s) (effectDeps s) (timeoutId s) (localStorage s) (clock s) (console s) (alerts s) (fetchCalls s) (pendingFetches s) (pushCalls s) (pendingPushes s) (adapterLog s).
Definition set_processingStatus v s := mkApp (reports s) (isProcessing s) v (error s) (serverUrl s) (syncStatus s) (lastSyncTime s) (isInitialLoad s) (reportsRef s) (effectDeps s) (timeoutId s) (localStorage s) (clock s) (console s) (alerts s) (fetchCalls s) (pendingFetches s) (pushCalls s) (pendingPushes s) (adapterLog s).
Definition set_error v s := mkApp (reports s) (isProcessing s) (processingStatus s) v (serverUrl s) (syncStatus s) (lastSyncTime s) (isInitialLoad s) (reportsRef s) (effectDeps s) (timeoutId s) (localStorage s) (clock s) (console s) (alerts s) (fetchCalls s) (pendingFetches s) (pushCalls s) (pendingPushes s) (adapterLog s).
Definition set_serverUrl v s := mkApp (reports s) (isProcessing s) (processingStatus s) (error s) v (syncStatus s) (lastSyncTime s) (isInitialLoad s) (reportsRef s) (effectDeps s) (timeoutId s) (localStorage s) (clock s) (console s) (alerts s) (fetchCalls s) (pendingFetches s) (pushCalls s) (pendingPushes s) (adapterLog s).
Definition set_syncStatus v s := mkApp (reports s) (isProcessing s) (processingStatus s) (error s) (serverUrl s) v (lastSyncTime s) (isInitialLoad s) (reportsRef s) (effectDeps s) (timeoutId s) (localStorage s) (clock s) (console s) (alerts s) (fetchCalls s) (pendingFetches s) (pushCalls s) (pendingPushes s) (adapterLog s).
Definition set_lastSyncTime v s := mkApp (reports s) (isProcessing s) (processingStatus s) (error s) (serverUrl s) (syncStatus s) v (isInitialLoad s) (reportsRef s) (effectDeps s) (timeoutId s) (localStorage s) (clock s) (console s) (alerts s) (fetchCalls s) (pendingFetches s) (pushCalls s) (pendingPushes s) (adapterLog s).
Definition set_isInitialLoad v s := mkApp (reports s) (isProcessing s) (processingStatus s) (error s) (serverUrl s) (syncStatus s) (lastSyncTime s) v (reportsRef s) (effectDeps s) (timeoutId s) (localStorage s) (clock s) (console s) (alerts s) (fetchCalls s) (pendingFetches s) (pushCalls s) (pendingPushes s) (adapterLog s).
Definition set_reportsRef v s := mkApp (reports s) (isProcessing s) (processingStatus s) (error s) (serverUrl s) (syncStatus s) (lastSyncTime s) (isInitialLoad s) v (effectDeps s) (timeoutId s) (localStorage s) (clock s) (console s) (alerts s) (fetchCalls s) (pendingFetches s) (pushCalls s) (pendingPushes s) (adapterLog s).
Definition set_effectDeps v s := mkApp (reports s) (isProcessing s) (processingStatus s) (error s) (serverUrl s) (syncStatus s) (lastSyncTime s) (isInitialLoad s) (reportsRef s) v (timeoutId s) (localStorage s) (clock s) (console s) (alerts s) (fetchCalls s) (pendingFetches s) (pushCalls s) (pendingPushes s) (adapterLog s).
Definition set_timeoutId v s := mkApp (reports s) (isProcessing s) (processingStatus s) (error s) (serverUrl s) (syncStatus s) (lastSyncTime s) (isInitialLoad s) (reportsRef s) (effectDeps s) v (localStorage s) (clock s) (console s) (alerts s) (fetchCalls s) (pendingFetches s) (pushCalls s) (pendingPushes s) (adapterLog s).
Definition set_localStorage v s := mkApp (reports s) (isProcessing s) (processingStatus s) (error s) (serverUrl s) (syncStatus s) (lastSyncTime s) (isInitialLoad s) (reportsRef s) (effectDeps s) (timeoutId s) v (clock s) (console s) (alerts s) (fetchCalls s) (pendingFetches s) (pushCalls s) (pendingPushes s) (adapterLog s).
Definition set_clock v s := mkApp (reports s) (isProcessing s) (processingStatus s) (error s) (serverUrl s) (syncStatus s) (lastSyncTime s) (isInitialLoad s) (reportsRef s) (effectDeps s) (timeoutId s) (localStorage s) v (console s) (alerts s) (fetchCalls s) (pendingFetches s) (pushCalls s) (pendingPushes s) (adapterLog s).
Definition set_console v s := mkApp (reports s) (isProcessing s) (processingStatus s) (error s) (serverUrl s) (syncStatus s) (lastSyncTime s) (isInitialLoad s) (reportsRef s) (effectDeps s) (timeoutId s) (localStorage s) (clock s) v (alerts s) (fetchCalls s) (pendingFetches s) (pushCalls s) (pendingPushes s) (adapterLog s).
Definition set_alerts v s := mkApp (reports s) (isProcessing s) (processingStatus s) (error s) (serverUrl s) (syncStatus s) (lastSyncTime s) (isInitialLoad s) (reportsRef s) (effectDeps s) (timeoutId s) (localStorage s) (clock s) (console s) v (fetchCalls s) (pendingFetches s) (pushCalls s) (pendingPushes s) (adapterLog s).
Definition set_fetchCalls v s := mkApp (reports s) (isProcessing s) (processingStatus s) (error s) (serverUrl s) (syncStatus s) (lastSyncTime s) (isInitialLoad s) (reportsRef s) (effectDeps s) (timeoutId s) (localStorage s) (clock s) (console s) (alerts s) v (pendingFetches s) (pushCalls s) (pendingPushes s) (adapterLog s).
Definition set_pendingFetches v s := mkApp (reports s) (isProcessing s) (processingStatus s) (error s) (serverUrl s) (syncStatus s) (lastSyncTime s) (isInitialLoad s) (reportsRef s) (effectDeps s) (timeoutId s) (localStorage s) (clock s) (console s) (alerts s) (fetchCalls s) v (pushCalls s) (pendingPushes s) (adapterLog s).
Definition set_pushCalls v s := mkApp (reports s) (isProcessing s) (processingStatus s) (error s) (serverUrl s) (syncStatus s) (lastSyncTime s) (isInitialLoad s) (reportsRef s) (effectDeps s) (timeoutId s) (localStorage s) (clock s) (console s) (alerts s) (fetchCalls s) (pendingFetches s) v (pendingPushes s) (adapterLog s).
Definition set_pendingPushes v s := mkApp (reports s) (isProcessing s) (processingStatus s) (error s) (serverUrl s) (syncStatus s) (lastSyncTime s) (isInitialLoad s) (reportsRef s) (effectDeps s) (timeoutId s) (localStorage s) (clock s) (console s) (alerts s) (fetchCalls s) (pendingFetches s) (pushCalls s) v (adapterLog s).
Definition set_adapterLog v s := mkApp (reports s) (isProcessing s) (processingStatus s) (error s) (serverUrl s) (syncStatus s) (lastSyncTime s) (isInitialLoad s) (reportsRef s) (effectDeps s) (timeoutId s) (localStorage s) (clock s) (console s) (alerts s) (fetchCalls s) (pendingFetches s) (pushCalls s) (pendingPushes s) v.

(** ** React and browser primitives *)

(** [setReports(v)] with a fresh array [v]. *)
Definition setReports (v : list FlightReport) (s : App) : App :=
  set_reportsRef (S (reportsRef s)) (set_reports v s).

(** [setReports(prev => f(prev))]. *)
Definition setReportsFn (f : list FlightReport → list FlightReport) (s : App) : App :=
  setReports (f (reports s)) s.

Definition setServerUrl := set_serverUrl.
Definition setSyncStatus := set_syncStatus.
Definition setLastSyncTime (t : N) := set_lastSyncTime (Some t).
Definition setIsProcessing := set_isProcessing.
Definition setProcessingStatus := set_processingStatus.
Definition setError := set_error.

Definition Date_now (s : App) : N := clock s.

Definition localStorage_getItem (k : string) (s : App) : option string :=
  localStorage s !! k.
Definition localStorage_setItem (k v : string) (s : App) : App :=
  set_localStorage (<[k := v]> (localStorage s)) s.
Definition localStorage_removeItem (k : string) (s : App) : App :=
  set_localStorage (delete k (localStorage s)) s.

Definition console_error (msg : string) (s : App) : App :=
  set_console (console s ++ [msg]) s.
Definition alert (msg : string) (s : App) : App :=
  set_alerts (alerts s ++ [msg]) s.

Definition setTimeout (tm : Timer) (s : App) : App := set_timeoutId (Some tm) s.
Definition clearTimeout (s : App) : App := set_timeoutId None s.

(** JavaScript truthiness of a string, and of a [string | null]. *)
Definition truthy (x : string) : bool := bool_decide (x ≠ "").
Definition truthy_opt (x : option string) : bool :=
  match x with Some v => truthy v | None => false end.

(** ** The component *)

Section Component.
Context `{Platform}.

(** *** Local store (lines 37-44 and 77-80 of [App.tsx]) *)

(** The write of the auto-save effect:
    [if (reports.length > 0) localStorage.setItem(STORAGE_KEY, JSON.stringify(reports))]. *)
Definition saveCollection (c : list FlightReport) (s : App) : App :=
  if bool_decide (0 < length c)
  then localStorage_setItem STORAGE_KEY (JSON_stringify c) s
  else s.

(** The read of the initialising effect: [None] where nothing is loaded and
    [reports] keeps its initial value [[]]; the flag tells whether the
    [catch] branch ran. It stands for lines 37-44 on the texts [JSON_parse]
    covers; [loadStored] is the same lines on any text. *)
Definition loadCollection (s : App) : option (list FlightReport) * bool :=
  match localStorage_getItem STORAGE_KEY s with
  | Some savedData =>
      if truthy savedData then
        match JSON_parse savedData with
        | Some parsed => (Some parsed, false)
        | None => (None, true)
        end
      else (None, false)
  | None => (None, false)
  end.

(** *** Effect 3: auto-save (lines 76-96) *)

(** The effect body, run with the [reports] and [serverUrl] of the render
    it belongs to; [isInitialLoad.current] is read when the effect runs. *)
Definition autoSaveWith (reports_ : list FlightReport) (serverUrl_ : string) (s : App) : App :=
  let s := saveCollection reports_ s in
  if truthy serverUrl_ && negb (isInitialLoad s)
  then setTimeout {| deadline := (clock s + 1000)%N;
                     timer_url := serverUrl_;
                     timer_reports := reports_ |} s
  else s.

Definition autoSave (s : App) : App := autoSaveWith (reports s) (serverUrl s) s.

(** A render followed by its effects. The auto-save effect depends on
    [[reports, serverUrl]]: when either differs from the last run, the
    cleanup [clearTimeout(timeoutId)] runs and then the effect. *)
Definition commit (s : App) : App :=
  if decide (effectDeps s = Some (reportsRef s, serverUrl s)) then s
  else set_effectDeps (Some (reportsRef s, serverUrl s)) (autoSave (clearTimeout s)).

(** The [setTimeout] callback of the effect: it calls
    [saveReportsToServer(serverUrl, reports)] with the values it closed over. *)
Definition timerCallback (tm : Timer) (s : App) : App :=
  let s := set_timeoutId None s in
  let s := setSyncStatus SyncSyncing s in
  let s := set_pushCalls (pushCalls s ++ [{| push_at := clock s;
                                              push_url := timer_url tm;
                                              push_body := timer_reports tm |}]) s in
  commit (set_pendingPushes (S (pendingPushes s)) s).

(** Settlement of the [saveReportsToServer] promise. *)
Definition pushSettled (ok : bool) (s : App) : App :=
  let s := set_pendingPushes (pred (pendingPushes s)) s in
  commit (if ok then setLastSyncTime (Date_now s) (setSyncStatus SyncSynced s)
          else setSyncStatus SyncError s).

(** [dt] milliseconds pass; a pending timer whose delay has run out fires
    at its deadline. *)
Definition elapse (dt : N) (s : App) : App :=
  match timeoutId s with
  | Some tm =>
      if decide (deadline tm ≤ clock s + dt)%N
      then set_clock (clock s + dt)%N
             (timerCallback tm (set_clock (N.max (deadline tm) (clock s)) s))
      else set_clock (clock s + dt)%N s
  | None => set_clock (clock s + dt)%N s
  end.

(** *** [handleServerFetch] (lines 55-73) *)

(** Up to the [await]. *)
Definition handleServerFetch_sync (url : string) (s : App) : App :=
  if truthy url then
    let s := setSyncStatus SyncSyncing s in
    let s := set_fetchCalls (fetchCalls s ++ [url]) s in
    set_pendingFetches (S (pendingFetches s)) s
  else s.

(** The same as an event of its own, followed by the render it causes. *)
Definition handleServerFetch_start (url : string) (s : App) : App :=
  commit (handleServerFetch_sync url s).

(** From the [await] on: the rest of [try], or [catch], then [finally]. *)
Definition handleServerFetch_resume (res : FetchResult) (s : App) : App :=
  let s := set_pendingFetches (pred (pendingFetches s)) s in
  let s :=
    match res with
    | Fetched serverReports =>
        let s :=
          match serverReports with
          | Some c =>
              if bool_decide (0 < length c)
              then localStorage_setItem STORAGE_KEY (JSON_stringify c) (setReports c s)
              else s
          | None => s
          end in
        setLastSyncTime (Date_now s) (setSyncStatus SyncSynced s)
    | FetchRejected err =>
        setSyncStatus SyncError (console_error ("Server Fetch Error: " +:+ err) s)
    end in
  commit (set_isInitialLoad false s).

(** *** Effect 1: initialise (lines 33-52), and the first two renders *)

Definition initialState (ls : gmap string string) (t0 : N) : App :=
  mkApp [] false "" None "" SyncIdle None true 0 None None ls t0 [] [] [] 0 [] 0 [].

Definition initialize (s : App) : App :=
  let savedUrl := localStorage_getItem SERVER_URL_KEY s in
  let s := if truthy_opt savedUrl then setServerUrl (default "" savedUrl) s else s in
  let s :=
    match loadCollection s with
    | (Some parsed, _) => setReports parsed s
    | (None, true) =>
        console_error ("Failed to load local data " +:+
                       JSON_parse_exception
                         (default "" (localStorage_getItem STORAGE_KEY s))) s
    | (None, false) => s
    end in
  if truthy_opt savedUrl then handleServerFetch_sync (default "" savedUrl) s
  else set_isInitialLoad false s.

(** Mounting: the first render has [reports = []] and [serverUrl = ''];
    its effects run in order (initialise, then auto-save with the values of
    that first render); the state updates queued by [initialize] then
    cause a second render. *)
Definition mount (ls : gmap string string) (t0 : N) : App :=
  let s0 := initialState ls t0 in
  let s := initialize s0 in
  let s := autoSaveWith (reports s0) (serverUrl s0) s in
  let s := set_effectDeps (Some (reportsRef s0, serverUrl s0)) s in
  commit s.

(** *** Handlers *)

(** [handleUrlChange] (lines 99-107). *)
Definition handleUrlChange (newUrl : string) (s : App) : App :=
  let s := setServerUrl newUrl s in
  let s := localStorage_setItem SERVER_URL_KEY newUrl s in
  commit (if truthy newUrl then handleServerFetch_sync newUrl s
          else setSyncStatus SyncIdle s).

(** [onManualSync={() => handleServerFetch(serverUrl)}]. *)
Definition onManualSync (s : App) : App :=
  handleServerFetch_start (serverUrl s) s.

(** [handleRemoveReport] (lines 139-141). *)
Definition handleRemoveReport (id_ : string) (s : App) : App :=
  commit (setReportsFn (filter (λ r, id r ≠ id_)) s).

(** [handleClearAll] (lines 143-149); [confirmed] is the answer to
    [window.confirm]. *)
Definition handleClearAll (confirmed : bool) (s : App) : App :=
  if confirmed then
    let s := setReports [] s in
    let s := localStorage_removeItem STORAGE_KEY s in
    commit (setError None s)
  else s.

(** [handleImportBackup] (lines 165-185): [file] is the text of the chosen
    file, if one was chosen. A file that parses to something other than an
    array (line 175: no alert and no change) is not among the texts
    [JSON_parse] covers. *)
Definition handleImportBackup (file : option string) (confirmed : bool) (s : App) : App :=
  match file with
  | None => s
  | Some content_ =>
      match JSON_parse content_ with
      | Some parsedData => if confirmed then commit (setReports parsedData s) else s
      | None => alert "Error parsing backup file." s
      end
  end.

(** *** [handleFileSelect] (lines 109-137) *)

Record Tally := { successCount : nat; errorCount : nat }.

Definition analyzing (i n : nat) : string :=
  "Analyzing " +:+ pretty (i + 1) +:+ " of " +:+ pretty n +:+ "...".

(** One iteration of the [for] loop. The component renders while the
    handler is suspended at the [await]. *)
Definition processFile (i n : nat) (file : File) (st : App * Tally) : App * Tally :=
  let s := setProcessingStatus (analyzing i n) st.1 in
  let s := set_adapterLog (adapterLog s ++ [Invoke file]) s in
  let s := commit s in
  let s := set_adapterLog (adapterLog s ++ [Settle file]) s in
  match extractDataFromImage file with
  | Extracted newReport =>
      (setReportsFn (λ prev, newReport :: prev) s,
       {| successCount := S (successCount st.2); errorCount := errorCount st.2 |})
  | ExtractionFailed err =>
      (console_error ("Error processing file " +:+ name file +:+ ": " +:+ err) s,
       {| successCount := successCount st.2; errorCount := S (errorCount st.2) |})
  end.

Fixpoint forLoop (i n : nat) (files : list File) (st : App * Tally) : App * Tally :=
  match files with
  | [] => st
  | file :: rest => forLoop (S i) n rest (processFile i n file st)
  end.

Definition completedWithIssues (t : Tally) : string :=
  "Completed with issues: " +:+ pretty (successCount t) +:+ " processed, "
    +:+ pretty (errorCount t) +:+ " failed.".

(** The whole handler, with the tally its local counters end with. *)
Definition ingestBatch (files : list File) (s : App) : App * Tally :=
  let s := setIsProcessing true s in
  let s := setError None s in
  let st := forLoop 0 (length files) files (s, {| successCount := 0; errorCount := 0 |}) in
  let s := setProcessingStatus "" st.1 in
  let s := setIsProcessing false s in
  let s := if bool_decide (0 < errorCount st.2)
           then setError (Some (completedWithIssues st.2)) s else s in
  (commit s, st.2).

Definition handleFileSelect (files : list File) (s : App) : App :=
  (ingestBatch files s).1.

(** *** Events *)

Inductive Event :=
| UrlChange (newUrl : string)
| ManualSync
| FetchSettled (res : FetchResult)
| FileSelect (files : list File)
| RemoveReport (id_ : string)
| ClearAll (confirmed : bool)
| ImportBackup (file : option string) (confirmed : bool)
| PushSettled (ok : bool)
| Elapse (dt : N).

Definition step (s : App) (e : Event) : App :=
  match e with
  | UrlChange newUrl => handleUrlChange newUrl s
  | ManualSync => onManualSync s
  | FetchSettled res =>
      if decide (0 < pendingFetches s) then handleServerFetch_resume res s else s
  | FileSelect files => handleFileSelect files s
  | RemoveReport id_ => handleRemoveReport id_ s
  | ClearAll confirmed => handleClearAll confirmed s
  | ImportBackup file confirmed => handleImportBackup file confirmed s
  | PushSettled ok =>
      if decide (0 < pendingPushes s) then pushSettled ok s else s
  | Elapse dt => elapse dt s
  end.

Definition run (s : App) (es : list Event) : App := foldl step s es.

(** *** Vocabulary of the properties *)

(** A state is settled when the auto-save effect has run for the current
    [reports] and [serverUrl]: what every handler leaves behind. *)
Definition settled (s : App) : Prop :=
  effectDeps s = Some (reportsRef s, serverUrl s).

#[global] Instance settled_dec s : Decision (settled s).
Proof. unfold settled. apply _. Defined.

(** The report a document yields, if its extraction succeeds. *)
Definition extracted (file : File) : option FlightReport :=
  match extractDataFromImage file with
  | Extracted newReport => Some newReport
  | ExtractionFailed _ => None
  end.

(** The reports of the documents of a batch that succeed, in input order,
    and the documents that fail. *)
Definition accepted (files : list File) : list FlightReport := omap extracted files.
Definition rejected (files : list File) : list File :=
  filter (λ file, extracted file = None) files.

(** The service calls of a batch handled one document at a time: each call
    settles before the next is made. *)
Definition oneAtATime (files : list File) : list AdapterEvent :=
  files ≫= λ file, [Invoke file; Settle file].

(** What the JSON of the platform owes a collection for it to survive a
    save and a load: [JSON.parse(JSON.stringify(c))] is [c] again, and the
    text is not the empty string. *)
Definition survivesJSON (c : list FlightReport) : Prop :=
  JSON_parse (JSON_stringify c) = Some c ∧ JSON_stringify c ≠ "".

(** Storage from which nothing loads: no entry, an empty entry, or a text
    [JSON.parse] throws on. *)
Definition unreadable (ls : gmap string string) : Prop :=
  ls !! STORAGE_KEY = None
  ∨ ls !! STORAGE_KEY = Some ""
  ∨ ∃ savedData, ls !! STORAGE_KEY = Some savedData ∧ JSON_parse savedData = None.

(** The mutations of the collection the component offers, by the names the
    specification gives them. *)
Inductive Mutation :=
| addRecord (newReport : FlightReport)
| removeRecord (id_ : string)
| clearAll
| replaceAll (c : list FlightReport).

(** Each as the component performs it, render included: [addRecord] is the
    update of line 122, [replaceAll] the one of line 177. *)
Definition mutate (m : Mutation) (s : App) : App :=
  match m with
  | addRecord newReport => commit (setReportsFn (λ prev, newReport :: prev) s)
  | removeRecord id_ => handleRemoveReport id_ s
  | clearAll => handleClearAll true s
  | replaceAll c => commit (setReports c s)
  end.

(** The collection a mutation leads to. *)
Definition applied (m : Mutation) (c : list FlightReport) : list FlightReport :=
  match m with
  | addRecord newReport => newReport :: c
  | removeRecord id_ => filter (λ r, id r ≠ id_) c
  | clearAll => []
  | replaceAll c' => c'
  end.

(** The Local Store holds the collection [c]. *)
Definition persisted (c : list FlightReport) (s : App) : Prop :=
  localStorage s !! STORAGE_KEY = Some (JSON_stringify c).

(** The time a burst takes from its first mutation to its last. *)
Definition duration (rest : list (N * Mutation)) : N :=
  foldr (λ gm t, (gm.1 + t)%N) 0%N rest.

(** A burst of mutations: a first one now, then each further one [gap]
    milliseconds after the one before it. *)
Fixpoint burst (rest : list (N * Mutation)) (s : App) : App :=
  match rest with
  | [] => s
  | (gap, m) :: rest => burst rest (mutate m (elapse gap s))
  end.

(** The burst [m, rest] started in [s] is coalesced: no push is made while
    it lasts, and once a second or more has passed after its last mutation
    exactly one push has been made, one second after that mutation, to the
    endpoint and with the collection the burst ended with. *)
Definition coalesced (s : App) (m : Mutation) (rest : list (N * Mutation)) : Prop :=
  let s' := burst rest (mutate m s) in
  pushCalls s' = pushCalls s
  ∧ clock s' = (clock s + duration rest)%N
  ∧ ∀ dt, (1000 ≤ dt)%N →
      pushCalls (elapse dt s')
      = pushCalls s ++ [{| push_at := (clock s + duration rest + 1000)%N;
                           push_url := serverUrl s;
                           push_body := reports s' |}].

(** Debounce coalescing as the specification states it: an endpoint is
    configured and the mutations of the burst are less than a second apart. *)
Definition debounceClaim (s : App) (m : Mutation) (rest : list (N * Mutation)) : Prop :=
  settled s →
  truthy (serverUrl s) = true →
  Forall (λ gm, (gm.1 < 1000)%N) rest →
  coalesced s m rest.

(** No two reports of [c] share an identifier. *)
Definition uniqueIds (c : list FlightReport) : Prop := NoDup (id <$> c).

(** Uniqueness as the specification states it: whatever the component is
    put through, a collection with unique identifiers stays one. *)
Definition uniquenessClaim (s : App) (es : list Event) : Prop :=
  uniqueIds (reports s) → uniqueIds (reports (run s es)).

(** What an event must bring for identifiers to stay unique in the
    collection [c] it meets: fresh identifiers from the extraction service,
    and no duplicate inside a collection that replaces [c]. *)
Definition respectsIds (c : list FlightReport) (e : Event) : Prop :=
  match e with
  | FileSelect files => uniqueIds (rev (accepted files) ++ c)
  | FetchSettled (Fetched (Some serverReports)) => uniqueIds serverReports
  | ImportBackup (Some text) true =>
      match JSON_parse text with
      | Some parsedData => uniqueIds parsedData
      | None => True
      end
  | _ => True
  end.

Fixpoint admissible (s : App) (es : list Event) : Prop :=
  match es with
  | [] => True
  | e :: es => respectsIds (reports s) e ∧ admissible (step s e) es
  end.

(** The timer of the effect is pending, set a second from now. *)
Definition armed (s : App) : Prop :=
  settled s
  ∧ timeoutId s = Some {| deadline := (clock s + 1000)%N; timer_url := serverUrl s;
                          timer_reports := reports s |}.

(** The Local Store holds the collection whenever the collection is not
    empty. *)
Definition durable (s : App) : Prop :=
  reports s ≠ [] → persisted (reports s) s.

(** A pending timer belongs to the current render: it carries the endpoint
    and the collection as they are now, and there is one only with an
    endpoint configured and the initial load over. *)
Definition timerCurrent (s : App) : Prop :=
  ∀ tm, timeoutId s = Some tm →
    timer_url tm = serverUrl s ∧ timer_reports tm = reports s
    ∧ truthy (serverUrl s) = true ∧ isInitialLoad s = false.

Definition coherent (s : App) : Prop := durable s ∧ timerCurrent s.

(** The states the component goes through: it is mounted on some storage
    at some time, and then events happen. *)
Definition reachable (s : App) : Prop :=
  ∃ ls t0 es, s = run (mount ls t0) es.

(** The events of a session that never configures an endpoint. *)
Definition keepsLocal (e : Event) : Prop :=
  match e with
  | UrlChange newUrl => newUrl = ""
  | _ => True
  end.

(** The cause a failing document is logged with. *)
Definition failure (file : File) : option string :=
  match extractDataFromImage file with
  | Extracted _ => None
  | ExtractionFailed err => Some ("Error processing file " +:+ name file +:+ ": " +:+ err)
  end.

(** Coherent as far as the last render goes: what holds of a state in the
    middle of a handler. *)
Definition midway (s : App) : Prop := settled s → coherent s.

(** What the ingestion loop leaves alone. *)
Definition sameSync (s s' : App) : Prop :=
  serverUrl s' = serverUrl s ∧ isInitialLoad s' = isInitialLoad s
  ∧ clock s' = clock s ∧ pushCalls s' = pushCalls s
  ∧ fetchCalls s' = fetchCalls s ∧ syncStatus s' = syncStatus s
  ∧ lastSyncTime s' = lastSyncTime s.

(** The state of a session that has no endpoint and never had one. *)
Definition localOnly (s : App) : Prop :=
  serverUrl s = "" ∧ fetchCalls s = [] ∧ pushCalls s = []
  ∧ pendingFetches s = 0 ∧ pendingPushes s = 0
  ∧ syncStatus s = SyncIdle ∧ lastSyncTime s = None.


(** The events other than the settling of a pull. *)
Definition beforeAnyPullSettles (e : Event) : Prop :=
  match e with
  | FetchSettled _ => False
  | _ => True
  end.

(** The guard is set, no timer is pending, no push was made. *)
Definition guarded (s : App) : Prop :=
  isInitialLoad s = true ∧ timeoutId s = None ∧ pushCalls s = [].

End Component.

(** ** A platform to run the component on

    The theorems below hold for every [Platform]. To execute the component
    on concrete inputs one is needed: a JSON printer and reader for report
    arrays (compact output, integers only, the two-character escapes), and
    a stand-in for the recognition service. *)

Module JSON.

Inductive value :=
| Null
| Bool (b : bool)
| Num (n : Z)
| Str (s : string)
| Arr (xs : list value)
| Obj (kvs : list (string * value)).

Definition dquote : ascii := Ascii.ascii_of_nat 34.
Definition backslash : ascii := Ascii.ascii_of_nat 92.

Fixpoint escape (s : string) : string :=
  match s with
  | EmptyString => EmptyString
  | String c r =>
      if bool_decide (c = dquote ∨ c = backslash)
      then String backslash (String c (escape r))
      else String c (escape r)
  end.

Definition quoted (s : string) : string :=
  String dquote (escape s +:+ String dquote EmptyString).

Fixpoint print (v : value) : string :=
  match v with
  | Null => "null"
  | Bool b => if b then "true" else "false"
  | Num n => pretty n
  | Str s => quoted s
  | Arr xs =>
      "[" +:+
      (fix items (xs : list value) : string :=
         match xs with
         | [] => EmptyString
         | [x] => print x
         | x :: rest => print x +:+ "," +:+ items rest
         end) xs +:+ "]"
  | Obj kvs =>
      "{" +:+
      (fix members (kvs : list (string * value)) : string :=
         match kvs with
         | [] => EmptyString
         | [(k, x)] => quoted k +:+ ":" +:+ print x
         | (k, x) :: rest => quoted k +:+ ":" +:+ print x +:+ "," +:+ members rest
         end) kvs +:+ "}"
  end.

Definition is_space (c : ascii) : bool :=
  bool_decide (Ascii.nat_of_ascii c ∈ [32; 9; 10; 13]).

Fixpoint skip (s : string) : string :=
  match s with
  | String c r => if is_space c then skip r else s
  | EmptyString => s
  end.

Definition digit (c : ascii) : option Z :=
  let n := Ascii.nat_of_ascii c in
  if bool_decide (48 ≤ n ≤ 57) then Some (Z.of_nat (n - 48)) else None.

Fixpoint digits (acc : Z) (s : string) : Z * string :=
  match s with
  | String c r =>
      match digit c with
      | Some d => digits (10 * acc + d) r
      | None => (acc, s)
      end
  | EmptyString => (acc, s)
  end.

Definition starts_with_digit (s : string) : bool :=
  match s with
  | String c _ => bool_decide (is_Some (digit c))
  | EmptyString => false
  end.

Definition number (s : string) : option (Z * string) :=
  match s with
  | String "-" r =>
      if starts_with_digit r then Some (prod_map Z.opp (λ r, r) (digits 0 r)) else None
  | _ => if starts_with_digit s then Some (digits 0 s) else None
  end.

(** The characters of a string literal, after its opening quote. *)
Fixpoint chars (acc : list ascii) (s : string) : option (string * string) :=
  match s with
  | EmptyString => None
  | String c r =>
      if bool_decide (c = dquote) then Some (String.string_of_list_ascii (rev acc), r)
      else if bool_decide (c = backslash) then
        match r with
        | String e r' =>
            if bool_decide (e = dquote ∨ e = backslash ∨ e = "/"%char)
            then chars (e :: acc) r' else None
        | EmptyString => None
        end
      else chars (c :: acc) r
  end.

Fixpoint eat (word s : string) : option string :=
  match word, s with
  | EmptyString, _ => Some s
  | String c w, String d r => if bool_decide (c = d) then eat w r else None
  | String _ _, EmptyString => None
  end.

Fixpoint parse_value (fuel : nat) (s : string) : option (value * string) :=
  match fuel with
  | 0 => None
  | S fuel =>
      match skip s with
      | EmptyString => None
      | String "[" r =>
          match skip r with
          | String "]" r' => Some (Arr [], r')
          | _ =>
              (fix elements (n : nat) (acc : list value) (s : string) :=
                 match n with
                 | 0 => None
                 | S n =>
                     match parse_value fuel s with
                     | Some (v, r) =>
                         match skip r with
                         | String "," r' => elements n (v :: acc) r'
                         | String "]" r' => Some (Arr (rev (v :: acc)), r')
                         | _ => None
                         end
                     | None => None
                     end
                 end) fuel [] r
          end
      | String "{" r =>
          match skip r with
          | String "}" r' => Some (Obj [], r')
          | _ =>
              (fix members (n : nat) (acc : list (string * value)) (s : string) :=
                 match n with
                 | 0 => None
                 | S n =>
                     match skip s with
                     | String q r =>
                         if bool_decide (q = dquote) then
                           match chars [] r with
                           | Some (k, r) =>
                               match skip r with
                               | String ":" r =>
                                   match parse_value fuel r with
                                   | Some (v, r) =>
                                       match skip r with
                                       | String "," r' => members n ((k, v) :: acc) r'
                                       | String "}" r' => Some (Obj (rev ((k, v) :: acc)), r')
                                       | _ => None
                                       end
                                   | None => None
                                   end
                               | _ => None
                               end
                           | None => None
                           end
                         else None
                     | EmptyString => None
                     end
                 end) fuel [] r
          end
      | String c r as s' =>
          if bool_decide (c = dquote) then prod_map Str (λ r, r) <$> chars [] r
          else if bool_decide (c = "n"%char) then pair Null <$> eat "null" s'
          else if bool_decide (c = "t"%char) then pair (Bool true) <$> eat "true" s'
          else if bool_decide (c = "f"%char) then pair (Bool false) <$> eat "false" s'
          else prod_map Num (λ r, r) <$> number s'
      end
  end.

(** [None] where [JSON.parse] throws a [SyntaxError]. *)
Definition parse (s : string) : option value :=
  match parse_value (S (String.length s)) s with
  | Some (v, r) => if bool_decide (skip r = EmptyString) then Some v else None
  | None => None
  end.

Definition field (k : string) (kvs : list (string * value)) : option value :=
  match list_find (λ kv, kv.1 = k) kvs with
  | Some (_, (_, v)) => Some v
  | None => None
  end.

Definition text (k : string) (kvs : list (string * value)) : option string :=
  match field k kvs with Some (Str s) => Some s | _ => None end.

Definition integer (k : string) (kvs : list (string * value)) : option Z :=
  match field k kvs with Some (Num n) => Some n | _ => None end.

Definition array {A} (item : value → option A) (k : string)
    (kvs : list (string * value)) : option (list A) :=
  match field k kvs with Some (Arr xs) => mapM (M := option) item xs | _ => None end.

Definition of_fault (f : FaultItem) : value :=
  Obj [("time", Str (fault_time f)); ("phase", Str (phase f)); ("ata", Str (ata f));
       ("description", Str (fault_description f))].

Definition of_failure (f : FailureItem) : value :=
  Obj [("time", Str (failure_time f)); ("source", Str (source f));
       ("identifier", Str (identifier f)); ("description", Str (failure_description f))].

Definition of_report (r : FlightReport) : value :=
  Obj ([("id", Str (id r)); ("aircraftId", Str (aircraftId r)); ("date", Str (date r));
        ("flightNumber", Str (flightNumber r)); ("cityPair", Str (cityPair r));
        ("faults", Arr (of_fault <$> faults r)); ("failures", Arr (of_failure <$> failures r))]
       ++ match rawText r with Some t => [("rawText", Str t)] | None => [] end
       ++ [("timestamp", Num (timestamp r))]).

Definition to_fault (v : value) : option FaultItem :=
  match v with
  | Obj kvs =>
      t ← text "time" kvs; p ← text "phase" kvs; a ← text "ata" kvs;
      d ← text "description" kvs;
      Some {| fault_time := t; phase := p; ata := a; fault_description := d |}
  | _ => None
  end.

Definition to_failure (v : value) : option FailureItem :=
  match v with
  | Obj kvs =>
      t ← text "time" kvs; s ← text "source" kvs; i ← text "identifier" kvs;
      d ← text "description" kvs;
      Some {| failure_time := t; source := s; identifier := i; failure_description := d |}
  | _ => None
  end.

Definition to_report (v : value) : option FlightReport :=
  match v with
  | Obj kvs =>
      i ← text "id" kvs; a ← text "aircraftId" kvs; d ← text "date" kvs;
      n ← text "flightNumber" kvs; c ← text "cityPair" kvs;
      fs ← array to_fault "faults" kvs;
      ls ← array to_failure "failures" kvs;
      t ← integer "timestamp" kvs;
      Some {| id := i; aircraftId := a; date := d; flightNumber := n; cityPair := c;
              faults := fs; failures := ls; rawText := text "rawText" kvs; timestamp := t |}
  | _ => None
  end.

Definition stringify (c : list FlightReport) : string := print (Arr (of_report <$> c)).

Definition parse_reports (s : string) : option (list FlightReport) :=
  match parse s with
  | Some (Arr xs) => mapM (M := option) to_report xs
  | _ => None
  end.

End JSON.

(** ** The loader on any stored text

    Lines 37-44 hand whatever [JSON.parse] returns to [setReports]; unlike
    the import (line 175) they do not ask [Array.isArray] first. What
    follows is that piece of the component on JavaScript values, and the
    two reads the component then makes of the value. *)

(** What lines 37-44 do with the stored entry. *)
Inductive Loaded :=
| NothingStored
| ParseThrew
| SetReports (v : JSON.value).

Definition loadStored (savedData : option string) : Loaded :=
  match savedData with
  | Some text =>
      if truthy text then
        match JSON.parse text with
        | Some v => SetReports v
        | None => ParseThrew
        end
      else NothingStored
  | None => NothingStored
  end.

(** The result of reading a property: a value, [undefined], or a
    [TypeError] thrown. *)
Inductive Read (A : Type) :=
| Value (a : A)
| Undefined
| TypeError.
Arguments Value {A} a.
Arguments Undefined {A}.
Arguments TypeError {A}.

(** [reports.length], as the auto-save effect (line 78) and the render
    (line 232) read it. *)
Definition dot_length (v : JSON.value) : Read nat :=
  match v with
  | JSON.Null => TypeError
  | JSON.Arr xs => Value (length xs)
  | JSON.Str s => Value (String.length s)
  | JSON.Bool _ | JSON.Num _ | JSON.Obj _ => Undefined
  end.

(** [Array.isArray], the check line 175 makes on an imported file. *)
Definition Array_isArray (v : JSON.value) : bool :=
  match v with
  | JSON.Arr _ => true
  | _ => false
  end.

(** A stand-in recognition service: a scan with no content is rejected,
    any other yields a report named after the file. *)
Definition recognised (file : File) : FlightReport :=
  {| id := "pfr-" +:+ name file; aircraftId := "9V-SKA"; date := "2024-05-01";
     flightNumber := "SQ321"; cityPair := "SIN-LHR"; faults := [];
     failures := []; rawText := Some (content file); timestamp := 0 |}.

Definition recognise (file : File) : Extraction :=
  if bool_decide (content file = EmptyString) then ExtractionFailed "empty response"
  else Extracted (recognised file).

Definition browser : Platform := {|
  JSON_stringify := JSON.stringify;
  JSON_parse := JSON.parse_reports;
  JSON_parse_exception := λ _, "SyntaxError: Unexpected token in JSON";
  extractDataFromImage := recognise;
|}.

(** Sample data. *)
Definition pfr (i : string) : FlightReport :=
  {| id := i; aircraftId := "9V-SKA"; date := "2024-05-01"; flightNumber := "SQ321";
     cityPair := "SIN-LHR";
     faults := [{| fault_time := "0412"; phase := "06"; ata := "21-31";
                   fault_description := "PACK 1 REGUL FAULT" |}];
     failures := []; rawText := None; timestamp := 1714536000000 |}.

Definition endpoint : string := "https://fleet.example/reports".

(** Two scans the stand-in service reads, and one it rejects. *)
Definition scan (n : string) : File := {| name := n; content := "PFR" |}.
Definition blank (n : string) : File := {| name := n; content := EmptyString |}.

(** A browser whose storage holds the endpoint and a collection of two. *)
Definition stored : gmap string string :=
  {[ SERVER_URL_KEY := endpoint; STORAGE_KEY := JSON.stringify [pfr "A"; pfr "B"] ]}.


(** * Properties *)

Section Properties.
Context `{Platform}.

Ltac unfold_effect :=
  unfold commit, autoSave, autoSaveWith, saveCollection, setTimeout, clearTimeout,
    localStorage_setItem.

Ltac frame := intros; unfold_effect; repeat case_match; reflexivity.

(** ** What a render leaves alone *)

Lemma commit_reports s : reports (commit s) = reports s.
Proof. frame. Qed.
Lemma commit_reportsRef s : reportsRef (commit s) = reportsRef s.
Proof. frame. Qed.
Lemma commit_serverUrl s : serverUrl (commit s) = serverUrl s.
Proof. frame. Qed.
Lemma commit_syncStatus s : syncStatus (commit s) = syncStatus s.
Proof. frame. Qed.
Lemma commit_lastSyncTime s : lastSyncTime (commit s) = lastSyncTime s.
Proof. frame. Qed.
Lemma commit_isInitialLoad s : isInitialLoad (commit s) = isInitialLoad s.
Proof. frame. Qed.
Lemma commit_clock s : clock (commit s) = clock s.
Proof. frame. Qed.
Lemma commit_pushCalls s : pushCalls (commit s) = pushCalls s.
Proof. frame. Qed.
Lemma commit_adapterLog s : adapterLog (commit s) = adapterLog s.
Proof. frame. Qed.
Lemma commit_error s : error (commit s) = error s.
Proof. frame. Qed.
Lemma commit_console s : console (commit s) = console s.
Proof. frame. Qed.

Lemma commit_settled s : settled (commit s).
Proof.
  unfold settled, commit. case_decide as Hd; [exact Hd|].
  unfold_effect. repeat case_match; reflexivity.
Qed.

Lemma commit_id s : settled s → commit s = s.
Proof. unfold settled, commit. intros Hs. by rewrite decide_True. Qed.

(** What a render does when a dependency changed. *)
Lemma commit_changed s :
  ¬ settled s →
  commit s = set_effectDeps (Some (reportsRef s, serverUrl s)) (autoSave (clearTimeout s)).
Proof. unfold settled, commit. intros Hs. by rewrite decide_False. Qed.

Lemma setReports_unsettles s v : settled s → ¬ settled (setReports v s).
Proof. unfold settled. cbn. intros -> [=]. lia. Qed.

(** What the effect does to the Local Store and to the timer. *)
Lemma commit_changed_localStorage s :
  ¬ settled s →
  localStorage (commit s)
  = if bool_decide (0 < length (reports s))
    then <[STORAGE_KEY := JSON_stringify (reports s)]> (localStorage s)
    else localStorage s.
Proof.
  intros Hs. rewrite commit_changed by done. unfold_effect. cbn -[insert].
  repeat case_match; reflexivity.
Qed.

Lemma commit_changed_timeoutId s :
  ¬ settled s →
  timeoutId (commit s)
  = if truthy (serverUrl s) && negb (isInitialLoad s)
    then Some {| deadline := (clock s + 1000)%N; timer_url := serverUrl s;
                 timer_reports := reports s |}
    else None.
Proof.
  intros Hs. rewrite commit_changed by done. unfold_effect. cbn -[insert].
  destruct (bool_decide (0 < length (reports s))); cbn -[insert];
    destruct (truthy (serverUrl s) && negb (isInitialLoad s)); reflexivity.
Qed.

Create Rewrite HintDb app.
Hint Rewrite commit_reports commit_reportsRef commit_serverUrl commit_syncStatus
  commit_lastSyncTime commit_isInitialLoad commit_clock commit_pushCalls
  commit_adapterLog commit_error commit_console : app.

(** ** Every state the component reaches is settled *)

Lemma mount_settled (ls : gmap string string) (t0 : N) : settled (mount ls t0).
Proof. apply commit_settled. Qed.

Lemma step_settled (s : App) (e : Event) : settled s → settled (step s e).
Proof.
  intros Hs.
  destruct e as [newUrl | | res | files | id_ | confirmed | file confirmed | ok | dt];
    cbn [step].
  - apply commit_settled.
  - apply commit_settled.
  - case_decide; [apply commit_settled | done].
  - apply commit_settled.
  - apply commit_settled.
  - destruct confirmed; [apply commit_settled | done].
  - unfold handleImportBackup.
    destruct file as [text|]; [|done].
    destruct (JSON_parse text); [|done].
    destruct confirmed; [apply commit_settled | done].
  - case_decide; [apply commit_settled | done].
  - unfold elapse. destruct (timeoutId s) as [tm|]; [|done].
    case_decide; [|done].
    exact (commit_settled _).
Qed.

Lemma run_settled (es : list Event) (s : App) : settled s → settled (run s es).
Proof.
  revert s. induction es as [|e es IH]; intros s Hs; [done|].
  cbn [run foldl]. by apply IH, step_settled.
Qed.

(** ** Pull *)

(** C5. A pull that resolves with a non-empty remote collection [B] leaves
    [reports] equal to [B], whatever the local collection was: nothing of
    the old one is kept and nothing is merged. The Local Store entry is
    rewritten to [B] as well. *)
Theorem pull_replaces_collection (s : App) (B : list FlightReport) :
  B ≠ [] →
  let s' := handleServerFetch_resume (Fetched (Some B)) s in
  reports s' = B
  ∧ (∀ r, r ∈ reports s' → r ∈ B)
  ∧ localStorage s' !! STORAGE_KEY = Some (JSON_stringify B)
  ∧ syncStatus s' = SyncSynced.
Proof.
  intros HB s'. subst s'. unfold handleServerFetch_resume.
  assert (Hlen : 0 < length B) by (destruct B; [done | cbn; lia]).
  rewrite bool_decide_eq_true_2 by done.
  autorewrite with app. cbn.
  split_and!; try done.
  unfold commit. case_decide.
  - cbn. by rewrite lookup_insert_eq.
  - unfold_effect. cbn. rewrite bool_decide_eq_true_2 by done.
    case_match; cbn; by rewrite lookup_insert_eq.
Qed.

(** C6. A pull whose fetch is rejected ends in status [error]; [reports]
    (the very same array) and [lastSyncTime] are what they were. *)
Theorem pull_failure_keeps_collection (s : App) (err : string) :
  let s' := handleServerFetch_resume (FetchRejected err) s in
  syncStatus s' = SyncError
  ∧ reports s' = reports s
  ∧ reportsRef s' = reportsRef s
  ∧ lastSyncTime s' = lastSyncTime s.
Proof. cbn zeta. unfold handleServerFetch_resume. autorewrite with app. done. Qed.

(** In a settled state the rejected pull leaves the Local Store and the
    pending timer alone too. *)
Lemma pull_failure_keeps_store (s : App) (err : string) :
  settled s →
  let s' := handleServerFetch_resume (FetchRejected err) s in
  localStorage s' = localStorage s ∧ timeoutId s' = timeoutId s.
Proof.
  intros Hs s'. subst s'. unfold handleServerFetch_resume.
  rewrite commit_id; [done | exact Hs].
Qed.

(** C10. A pull that resolves with an empty array, or with nothing, leaves
    [reports] and the Local Store as they were, and still sets the status
    to [synced] and [lastSyncTime] to the instant it completed. *)
Theorem pull_empty_marks_synced (s : App) (remote : option (list FlightReport)) :
  settled s →
  remote = None ∨ remote = Some [] →
  let s' := handleServerFetch_resume (Fetched remote) s in
  reports s' = reports s
  ∧ localStorage s' = localStorage s
  ∧ syncStatus s' = SyncSynced
  ∧ lastSyncTime s' = Some (clock s).
Proof.
  intros Hs Hr s'. subst s'. unfold handleServerFetch_resume.
  rewrite commit_id; [by destruct Hr as [-> | ->] | ].
  by destruct Hr as [-> | ->].
Qed.

(** ** Ingestion *)

Lemma processFile_spec (i n : nat) (file : File) (s : App) (t : Tally) :
  let st := processFile i n file (s, t) in
  reports st.1 = option_list (extracted file) ++ reports s
  ∧ successCount st.2 = successCount t + length (option_list (extracted file))
  ∧ errorCount st.2 = errorCount t + (if extracted file is Some _ then 0 else 1)
  ∧ adapterLog st.1 = adapterLog s ++ [Invoke file; Settle file]
  ∧ error st.1 = error s.
Proof.
  cbn zeta. unfold processFile, extracted.
  destruct (extractDataFromImage file) as [newReport | err];
    cbn; autorewrite with app; cbn; rewrite <- app_assoc;
    split_and!; first [done | lia].
Qed.

Lemma forLoop_spec (files : list File) (i n : nat) (s : App) (t : Tally) :
  let st := forLoop i n files (s, t) in
  reports st.1 = rev (accepted files) ++ reports s
  ∧ successCount st.2 = successCount t + length (accepted files)
  ∧ errorCount st.2 = errorCount t + length (rejected files)
  ∧ adapterLog st.1 = adapterLog s ++ oneAtATime files
  ∧ error st.1 = error s.
Proof.
  cbn zeta. revert i s t.
  induction files as [|file files IH]; intros i s t.
  - cbn. rewrite app_nil_r. split_and!; [done | lia | lia | done | done].
  - cbn [forLoop].
    destruct (processFile_spec i n file s t) as (Hr & Hs & He & Hl & Hb).
    destruct (processFile i n file (s, t)) as [s1 t1]. cbn [fst snd] in *.
    destruct (IH (S i) s1 t1) as (Hr' & Hs' & He' & Hl' & Hb').
    rewrite Hr', Hs', He', Hl', Hb', Hr, Hs, He, Hl, Hb.
    unfold accepted, rejected, oneAtATime.
    cbn [omap list_omap mbind list_bind]. rewrite filter_cons.
    destruct (extracted file) as [newReport|]; cbn [option_list length rev].
    + rewrite decide_False by done.
      rewrite <- !app_assoc. cbn. split_and!; [done | lia | lia | done | done].
    + rewrite decide_True by done.
      rewrite <- !app_assoc. cbn. split_and!; [done | lia | lia | done | done].
Qed.

Lemma ingestBatch_spec (files : list File) (s : App) :
  let res := ingestBatch files s in
  reports res.1 = rev (accepted files) ++ reports s
  ∧ errorCount res.2 = length (rejected files)
  ∧ successCount res.2 = length (accepted files)
  ∧ adapterLog res.1 = adapterLog s ++ oneAtATime files
  ∧ error res.1 = (if bool_decide (0 < length (rejected files))
                   then Some (completedWithIssues res.2) else None).
Proof.
  cbn zeta. unfold ingestBatch. cbn [fst snd].
  destruct (forLoop_spec files 0 (length files) (setError None (setIsProcessing true s))
              {| successCount := 0; errorCount := 0 |}) as (Hr & Hs & He & Hl & Hb).
  cbn in Hr, Hs, He, Hl, Hb.
  autorewrite with app. rewrite He.
  split_and!; try done; by case_bool_decide.
Qed.

(** The batch the specification gives: the first document fails, the
    second succeeds. *)
Lemma ingest_fail_then_succeed (d1 d2 : File) (r2 : FlightReport) (s : App) :
  extracted d1 = None →
  extracted d2 = Some r2 →
  let res := ingestBatch [d1; d2] s in
  reports res.1 = r2 :: reports s ∧ errorCount res.2 = 1.
Proof.
  intros H1 H2 res. destruct (ingestBatch_spec [d1; d2] s) as (Hr & He & _).
  subst res. rewrite Hr, He. unfold accepted, rejected.
  rewrite !filter_cons, filter_nil. cbn [omap list_omap]. rewrite H1, H2.
  rewrite decide_True, decide_False by done. done.
Qed.

(** C3. Whatever documents of a batch fail, [handleFileSelect] adds the
    reports of those that succeed, all of them, to [reports], ahead of what
    was there and with nothing of it lost; every document of the batch is
    handed to the extraction service, a failure before it or not; and when
    some document failed the error banner reads [Completed with issues: n
    processed, k failed.] with [n] the number of documents that succeeded
    and [k] the number that failed, while with no failure there is no
    banner. *)
Theorem ingest_partial_failure (files : list File) (s : App) :
  let s' := handleFileSelect files s in
  reports s' = rev (accepted files) ++ reports s
  ∧ adapterLog s' = adapterLog s ++ oneAtATime files
  ∧ error s'
    = (if bool_decide (0 < length (rejected files))
       then Some ("Completed with issues: " +:+ pretty (length (accepted files))
                  +:+ " processed, " +:+ pretty (length (rejected files))
                  +:+ " failed.")
       else None)
  ∧ length (accepted files) + length (rejected files) = length files.
Proof.
  cbn zeta. unfold handleFileSelect.
  destruct (ingestBatch_spec files s) as (Hr & He & Hs & Hl & Hb).
  split_and!; [done | done | |].
  - rewrite Hb. unfold completedWithIssues. by rewrite Hs, He.
  - unfold accepted, rejected. clear.
    induction files as [|file files IH]; [done|].
    cbn [omap list_omap]. rewrite filter_cons.
    destruct (extracted file);
      [rewrite decide_False by done | rewrite decide_True by done]; cbn; lia.
Qed.

(** C4. A batch [d1, d2, d3] whose extractions all succeed, with reports
    [r1], [r2], [r3]: the service is called for [d1], then [d2], then [d3],
    each call settling before the next is made, and [reports] ends as
    [r3, r2, r1] followed by what it held before. *)
Theorem ingest_order (d1 d2 d3 : File) (r1 r2 r3 : FlightReport) (s : App) :
  extractDataFromImage d1 = Extracted r1 →
  extractDataFromImage d2 = Extracted r2 →
  extractDataFromImage d3 = Extracted r3 →
  let s' := handleFileSelect [d1; d2; d3] s in
  reports s' = [r3; r2; r1] ++ reports s
  ∧ adapterLog s' = adapterLog s ++
      [Invoke d1; Settle d1; Invoke d2; Settle d2; Invoke d3; Settle d3].
Proof.
  intros H1 H2 H3 s'. subst s'. unfold handleFileSelect.
  destruct (ingestBatch_spec [d1; d2; d3] s) as (Hr & _ & _ & Hl & _).
  rewrite Hr, Hl. unfold accepted, extracted. cbn.
  by rewrite H1, H2, H3.
Qed.

(** ** Local Store *)

(** The auto-save effect of the first render does nothing. *)
Lemma autoSaveWith_first_render (s : App) : autoSaveWith [] "" s = s.
Proof. reflexivity. Qed.

Lemma initialize_reports (s : App) :
  reports (initialize s) = default (reports s) (loadCollection s).1.
Proof.
  unfold initialize, handleServerFetch_sync.
  assert (Hl : ∀ u, loadCollection (setServerUrl u s) = loadCollection s) by done.
  destruct (truthy_opt _); rewrite ?Hl;
    destruct (loadCollection s) as [[parsed|] []]; by repeat case_match.
Qed.

Lemma mount_reports (ls : gmap string string) (t0 : N) :
  reports (mount ls t0) = default [] (loadCollection (initialState ls t0)).1.
Proof.
  unfold mount. rewrite commit_reports.
  change (reports (initialState ls t0)) with (@nil FlightReport).
  change (serverUrl (initialState ls t0)) with EmptyString.
  rewrite autoSaveWith_first_render. cbn [reports set_effectDeps].
  apply initialize_reports.
Qed.

(** On the texts the typed interface covers: a non-empty collection [C]
    written by the auto-save effect is what the next start of the component
    loads, provided the platform's JSON gives [C] back; and from storage
    with no entry, an empty entry or a text [JSON.parse] throws on, the
    component starts with the empty collection. *)
Theorem persistence_round_trip
    (C : list FlightReport) (s : App) (ls : gmap string string) (t0 : N) :
  (C ≠ [] → survivesJSON C →
     (loadCollection (saveCollection C s)).1 = Some C
     ∧ reports (mount (localStorage (saveCollection C s)) t0) = C)
  ∧ (unreadable ls →
     (loadCollection (initialState ls t0)).1 = None
     ∧ reports (mount ls t0) = []).
Proof.
  split.
  - intros HC [Hparse Htext].
    assert (Hload : ∀ s', localStorage s' = localStorage (saveCollection C s) →
                          (loadCollection s').1 = Some C).
    { intros s' Hs'. unfold loadCollection, localStorage_getItem. rewrite Hs'.
      unfold saveCollection. rewrite bool_decide_eq_true_2
        by (destruct C; [done | cbn; lia]).
      cbn. rewrite lookup_insert_eq. unfold truthy.
      rewrite bool_decide_eq_true_2 by done. by rewrite Hparse. }
    split; [by apply Hload|].
    rewrite mount_reports, Hload; done.
  - intros Hls.
    assert (Hload : (loadCollection (initialState ls t0)).1 = None).
    { unfold loadCollection, localStorage_getItem. cbn [localStorage initialState].
      destruct Hls as [-> | [-> | (savedData & -> & Hparse)]]; [done | done |].
      rewrite Hparse. by case_match. }
    split; [done|]. by rewrite mount_reports, Hload.
Qed.

Lemma mutate_reports (m : Mutation) (s : App) :
  reports (mutate m s) = applied m (reports s).
Proof. destruct m; cbn; unfold handleRemoveReport; by autorewrite with app. Qed.

Lemma mutate_settled (m : Mutation) (s : App) : settled (mutate m s).
Proof. destruct m; apply commit_settled. Qed.

(** An import the operator confirms is a [replaceAll]. *)
Lemma import_is_replaceAll (text : string) (c : list FlightReport) (s : App) :
  JSON_parse text = Some c →
  handleImportBackup (Some text) true s = mutate (replaceAll c) s.
Proof. intros Hp. unfold handleImportBackup. by rewrite Hp. Qed.

(** The auto-save effect persists every non-empty collection a mutation
    leads to. *)
Lemma mutation_persists_nonempty (m : Mutation) (s : App) :
  settled s →
  reports (mutate m s) ≠ [] →
  persisted (reports (mutate m s)) (mutate m s).
Proof.
  intros Hs Hne. rewrite mutate_reports in *. unfold persisted.
  assert (Hlen : 0 < length (applied m (reports s)))
    by (destruct (applied m (reports s)); [done | cbn; lia]).
  destruct m; cbn in Hne, Hlen |- *; try done; unfold handleRemoveReport;
    rewrite commit_changed_localStorage by (by apply setReports_unsettles);
    cbn -[insert]; rewrite bool_decide_eq_true_2 by done;
    by rewrite lookup_insert_eq.
Qed.

Lemma clearAll_unsettles (s : App) :
  settled s → ¬ settled (setError None (localStorage_removeItem STORAGE_KEY (setReports [] s))).
Proof. unfold settled. cbn. intros -> [=]. lia. Qed.

(** [clearAll] erases the entry. *)
Lemma clearAll_erases (s : App) :
  settled s →
  reports (mutate clearAll s) = [] ∧ localStorage (mutate clearAll s) !! STORAGE_KEY = None.
Proof.
  intros Hs. cbn. autorewrite with app. split; [done|].
  rewrite commit_changed_localStorage by (by apply clearAll_unsettles).
  rewrite bool_decide_eq_false_2 by (cbn; lia).
  unfold localStorage_removeItem. cbn -[lookup delete]. by rewrite lookup_delete_eq.
Qed.

(** A mutation other than [clearAll] that empties the collection does not
    touch the Local Store: the write of the effect is guarded by
    [reports.length > 0]. *)
Lemma emptying_leaves_store (m : Mutation) (s : App) :
  settled s →
  m ≠ clearAll →
  reports (mutate m s) = [] →
  localStorage (mutate m s) = localStorage s.
Proof.
  intros Hs Hm He. rewrite mutate_reports in He.
  destruct m; cbn in He |- *; try done; unfold handleRemoveReport;
    rewrite commit_changed_localStorage by (by apply setReports_unsettles);
    cbn -[insert]; by rewrite He.
Qed.

(** ** Pull and push *)

Lemma pull_unsettles (s : App) (B : list FlightReport) :
  settled s →
  ¬ settled (set_isInitialLoad false (setLastSyncTime (Date_now
      (localStorage_setItem STORAGE_KEY (JSON_stringify B) (setReports B
         (set_pendingFetches (pred (pendingFetches s)) s))))
      (setSyncStatus SyncSynced
         (localStorage_setItem STORAGE_KEY (JSON_stringify B) (setReports B
            (set_pendingFetches (pred (pendingFetches s)) s)))))).
Proof. unfold settled. cbn. intros -> [=]. lia. Qed.

(** Whatever [isInitialLoad.current] was when the pull started, the render
    caused by [setReports(serverReports)] comes after [finally] has cleared
    it: with an endpoint configured the effect schedules a push of the
    collection just pulled. *)
Lemma pull_schedules_push (s : App) (B : list FlightReport) :
  settled s →
  truthy (serverUrl s) = true →
  B ≠ [] →
  timeoutId (handleServerFetch_resume (Fetched (Some B)) s)
  = Some {| deadline := (clock s + 1000)%N; timer_url := serverUrl s; timer_reports := B |}.
Proof.
  intros Hs Hu HB. unfold handleServerFetch_resume.
  rewrite bool_decide_eq_true_2 by (destruct B; [done | cbn; lia]).
  rewrite commit_changed_timeoutId by (by apply pull_unsettles).
  cbn. by rewrite Hu.
Qed.

(** ** Debounce *)

Lemma mutate_frame (m : Mutation) (s : App) :
  serverUrl (mutate m s) = serverUrl s
  ∧ isInitialLoad (mutate m s) = isInitialLoad s
  ∧ clock (mutate m s) = clock s
  ∧ pushCalls (mutate m s) = pushCalls s.
Proof. destruct m; cbn; unfold handleRemoveReport; by autorewrite with app. Qed.

(** A mutation cancels the pending timer, and starts a new one when an
    endpoint is configured and the initial load is over. *)
Lemma mutate_timeoutId (m : Mutation) (s : App) :
  settled s →
  timeoutId (mutate m s)
  = if truthy (serverUrl s) && negb (isInitialLoad s)
    then Some {| deadline := (clock s + 1000)%N; timer_url := serverUrl s;
                 timer_reports := applied m (reports s) |}
    else None.
Proof.
  intros Hs. destruct m; cbn; unfold handleRemoveReport.
  - by rewrite commit_changed_timeoutId by (by apply setReports_unsettles).
  - by rewrite commit_changed_timeoutId by (by apply setReports_unsettles).
  - by rewrite commit_changed_timeoutId by (by apply clearAll_unsettles).
  - by rewrite commit_changed_timeoutId by (by apply setReports_unsettles).
Qed.

Lemma mutate_armed (m : Mutation) (s : App) :
  settled s → truthy (serverUrl s) = true → isInitialLoad s = false →
  armed (mutate m s).
Proof.
  intros Hs Hu Hi. split; [apply mutate_settled|].
  destruct (mutate_frame m s) as (-> & _ & -> & _).
  rewrite mutate_timeoutId, mutate_reports, Hu, Hi by done. done.
Qed.

(** Less than a second after the timer was set, it has not fired. *)
Lemma elapse_quiet (gap : N) (s : App) :
  armed s → (gap < 1000)%N → elapse gap s = set_clock (clock s + gap)%N s.
Proof.
  intros [_ Ht] Hg. unfold elapse. rewrite Ht. cbn.
  rewrite decide_False by lia. done.
Qed.

(** A second or more after, it has: one push, made at the deadline. *)
Lemma elapse_fires (dt : N) (s : App) :
  armed s → (1000 ≤ dt)%N →
  pushCalls (elapse dt s)
  = pushCalls s ++ [{| push_at := (clock s + 1000)%N; push_url := serverUrl s;
                       push_body := reports s |}]
  ∧ timeoutId (elapse dt s) = None.
Proof.
  intros [Hs Ht] Hd. unfold elapse. rewrite Ht. cbn [deadline].
  rewrite decide_True by lia. unfold timerCallback.
  rewrite commit_id by exact Hs. cbn.
  by replace (N.max (clock s + 1000) (clock s)) with (clock s + 1000)%N by lia.
Qed.

Lemma burst_armed (rest : list (N * Mutation)) (s : App) :
  armed s → truthy (serverUrl s) = true → isInitialLoad s = false →
  Forall (λ gm, (gm.1 < 1000)%N) rest →
  armed (burst rest s)
  ∧ pushCalls (burst rest s) = pushCalls s
  ∧ clock (burst rest s) = (clock s + duration rest)%N
  ∧ serverUrl (burst rest s) = serverUrl s.
Proof.
  revert s. induction rest as [|[gap m] rest IH]; intros s Ha Hu Hi Hq.
  - change (duration []) with 0%N. cbn [burst].
    split_and!; [done | done | lia | done].
  - apply Forall_cons in Hq as [Hg Hq]. cbn [burst fst] in *.
    rewrite elapse_quiet by done.
    destruct (mutate_frame m (set_clock (clock s + gap)%N s)) as (Hu' & Hi' & Hc' & Hp').
    destruct (IH (mutate m (set_clock (clock s + gap)%N s))) as (Ha'' & Hp'' & Hc'' & Hu'');
      [apply mutate_armed; [apply Ha | done | done] | by rewrite Hu' | by rewrite Hi' | done |].
    rewrite Hp'', Hc'', Hu'', Hp', Hc', Hu'.
    change (duration ((gap, m) :: rest)) with (gap + duration rest)%N.
    cbn [clock set_clock serverUrl pushCalls].
    split_and!; [done | done | lia | done].
Qed.

(** C7, amended. With an endpoint configured and the [isInitialLoad] guard
    cleared, a burst of mutations less than a second apart causes exactly
    one push, one second after the last of them, carrying the collection
    the burst ended with; no push is made while the burst lasts. *)
Theorem debounce_coalesces (s : App) (m : Mutation) (rest : list (N * Mutation)) :
  isInitialLoad s = false →
  debounceClaim s m rest.
Proof.
  intros Hi Hs Hu Hq. unfold coalesced. cbn zeta.
  destruct (mutate_frame m s) as (Hu' & Hi' & Hc' & Hp').
  destruct (burst_armed rest (mutate m s)) as (Ha & Hp & Hc & Hu'');
    [by apply mutate_armed | by rewrite Hu' | by rewrite Hi' | done |].
  split_and!.
  - by rewrite Hp, Hp'.
  - by rewrite Hc, Hc'.
  - intros dt Hdt. destruct (elapse_fires dt _ Ha Hdt) as [-> _].
    by rewrite Hp, Hp', Hc, Hc', Hu'', Hu'.
Qed.

(** Each mutation of such a burst cancels the timer pending before it and
    starts its own: after every prefix of the burst the one pending timer
    is set a second after the last mutation made so far, for the
    collection as that mutation left it. *)
Lemma burst_restarts_timer
    (s : App) (m : Mutation) (rest : list (N * Mutation)) (k : nat) :
  isInitialLoad s = false →
  settled s →
  truthy (serverUrl s) = true →
  Forall (λ gm, (gm.1 < 1000)%N) rest →
  armed (burst (take k rest) (mutate m s)).
Proof.
  intros Hi Hs Hu Hq.
  destruct (mutate_frame m s) as (Hu' & Hi' & _ & _).
  destruct (burst_armed (take k rest) (mutate m s)) as (Ha & _);
    [by apply mutate_armed | by rewrite Hu' | by rewrite Hi'
     | by apply Forall_take | done].
Qed.

(** And a second later that push is made. *)
Lemma pull_then_push (s : App) (B : list FlightReport) (dt : N) :
  settled s →
  truthy (serverUrl s) = true →
  B ≠ [] →
  (1000 ≤ dt)%N →
  pushCalls (elapse dt (handleServerFetch_resume (Fetched (Some B)) s))
  = pushCalls s ++ [{| push_at := (clock s + 1000)%N; push_url := serverUrl s;
                       push_body := B |}].
Proof.
  intros Hs Hu HB Hdt.
  assert (Hlen : 0 < length B) by (destruct B; [done | cbn; lia]).
  assert (Hf : let s' := handleServerFetch_resume (Fetched (Some B)) s in
               clock s' = clock s ∧ serverUrl s' = serverUrl s
               ∧ reports s' = B ∧ pushCalls s' = pushCalls s).
  { cbn zeta. unfold handleServerFetch_resume.
    rewrite bool_decide_eq_true_2 by done. by autorewrite with app. }
  destruct Hf as (Hc & Hu' & Hr & Hp).
  assert (Ha : armed (handleServerFetch_resume (Fetched (Some B)) s)).
  { split; [apply commit_settled|].
    by rewrite pull_schedules_push, Hc, Hu', Hr. }
  destruct (elapse_fires dt _ Ha Hdt) as [-> _].
  by rewrite Hc, Hu', Hr, Hp.
Qed.

(** ** Identifiers *)

Lemma elapse_reports (dt : N) (s : App) : reports (elapse dt s) = reports s.
Proof.
  unfold elapse, timerCallback. repeat case_match; cbn; by autorewrite with app.
Qed.

(** The collection after an event. *)
Lemma step_reports (s : App) (e : Event) :
  reports (step s e)
  = match e with
    | FileSelect files => rev (accepted files) ++ reports s
    | FetchSettled (Fetched (Some serverReports)) =>
        if decide (0 < pendingFetches s ∧ 0 < length serverReports)
        then serverReports else reports s
    | RemoveReport id_ => filter (λ r, id r ≠ id_) (reports s)
    | ClearAll true => []
    | ImportBackup (Some text) true => default (reports s) (JSON_parse text)
    | _ => reports s
    end.
Proof.
  destruct e as [newUrl | | res | files | id_ | confirmed | file confirmed | ok | dt];
    cbn [step].
  - unfold handleUrlChange, handleServerFetch_sync. autorewrite with app.
    by case_match.
  - unfold onManualSync, handleServerFetch_start, handleServerFetch_sync.
    autorewrite with app. by case_match.
  - unfold handleServerFetch_resume.
    destruct res as [[serverReports|] | err];
      destruct (decide (0 < pendingFetches s)) as [Hp|Hp];
      autorewrite with app; cbn; try done.
    + case_bool_decide; [by rewrite decide_True | rewrite decide_False; [done|]].
      by intros [_ ?].
    + rewrite decide_False; [done|]. by intros [? _].
  - unfold handleFileSelect. by destruct (ingestBatch_spec files s) as [-> _].
  - unfold handleRemoveReport. by autorewrite with app.
  - destruct confirmed; cbn; by autorewrite with app.
  - unfold handleImportBackup.
    destruct file as [text|], confirmed; try done;
      destruct (JSON_parse text); cbn; by autorewrite with app.
  - unfold pushSettled. case_decide; [|done]. autorewrite with app. by case_match.
  - apply elapse_reports.
Qed.

Lemma step_uniqueIds (s : App) (e : Event) :
  uniqueIds (reports s) → respectsIds (reports s) e → uniqueIds (reports (step s e)).
Proof.
  intros Hu He. rewrite step_reports.
  destruct e as [newUrl | | res | files | id_ | confirmed | file confirmed | ok | dt];
    cbn in He; try done.
  - destruct res as [[serverReports|] | err]; try done. by case_decide.
  - unfold uniqueIds in *. eapply sublist_NoDup; [exact Hu|].
    apply fmap_sublist, sublist_filter.
  - destruct confirmed; [apply NoDup_nil_2 | done].
  - destruct file as [text|], confirmed; try done. by destruct (JSON_parse text).
Qed.

(** C9, amended. The component never checks identifiers; they stay unique
    through any sequence of events in which the extraction service returns
    identifiers that are fresh for the collection and every collection put
    in place by an import or a pull has no duplicate of its own. Removing,
    clearing, pushing and the passing of time keep uniqueness
    unconditionally. *)
Theorem unique_ids_preserved (es : list Event) (s : App) :
  uniqueIds (reports s) →
  admissible s es →
  uniqueIds (reports (run s es)).
Proof.
  revert s. induction es as [|e es IH]; intros s Hu Ha; [done|].
  destruct Ha as [He Ha]. cbn [run foldl]. apply IH; [|done].
  by apply step_uniqueIds.
Qed.

End Properties.

(** * Further properties of the component *)

Section Coverage.
Context `{Platform}.

Ltac effect_cases :=
  unfold commit, autoSave, autoSaveWith, saveCollection, setTimeout, clearTimeout,
    localStorage_setItem; repeat case_match; reflexivity.

Lemma commit_fetchCalls s : fetchCalls (commit s) = fetchCalls s.
Proof. effect_cases. Qed.
Lemma commit_pendingFetches s : pendingFetches (commit s) = pendingFetches s.
Proof. effect_cases. Qed.
Lemma commit_pendingPushes s : pendingPushes (commit s) = pendingPushes s.
Proof. effect_cases. Qed.
Lemma commit_alerts s : alerts (commit s) = alerts s.
Proof. effect_cases. Qed.
Lemma commit_isProcessing s : isProcessing (commit s) = isProcessing s.
Proof. effect_cases. Qed.
Lemma commit_processingStatus s : processingStatus (commit s) = processingStatus s.
Proof. effect_cases. Qed.

Create Rewrite HintDb render.
Hint Rewrite commit_reports commit_reportsRef commit_serverUrl commit_syncStatus
  commit_lastSyncTime commit_isInitialLoad commit_clock commit_pushCalls
  commit_adapterLog commit_error commit_console commit_fetchCalls
  commit_pendingFetches commit_pendingPushes commit_alerts commit_isProcessing
  commit_processingStatus : render.

(** ** The store and the timer follow the collection *)

(** A render makes the state coherent, if it was so when last settled. *)
Lemma commit_coherent (s : App) :
  (settled s → coherent s) → coherent (commit s).
Proof.
  intros Hpre. destruct (decide (settled s)) as [Hs|Hs].
  - rewrite commit_id by done. by apply Hpre.
  - split.
    + unfold durable, persisted. rewrite commit_reports. intros Hne.
      rewrite commit_changed_localStorage by done.
      rewrite bool_decide_eq_true_2 by (destruct (reports s); [done | cbn; lia]).
      by rewrite lookup_insert_eq.
    + unfold timerCurrent. intros tm.
      rewrite commit_changed_timeoutId, commit_serverUrl, commit_reports,
        commit_isInitialLoad by done.
      destruct (truthy (serverUrl s)) eqn:Hu, (isInitialLoad s) eqn:Hi; cbn;
        try done.
      by intros [= <-].
Qed.

Lemma STORAGE_KEY_ne : SERVER_URL_KEY ≠ STORAGE_KEY.
Proof. done. Qed.

Lemma midway_unsettled (s : App) : ¬ settled s → midway s.
Proof. by intros Hs Hs'. Qed.

Lemma setReports_midway (v : list FlightReport) (s : App) :
  settled s → midway (setReports v s).
Proof. intros Hs. by apply midway_unsettled, setReports_unsettles. Qed.

Lemma processFile_midway (i n : nat) (file : File) (st : App * Tally) :
  midway st.1 → midway (processFile i n file st).1.
Proof.
  intros Hm. unfold processFile.
  set (s2 := set_adapterLog _ (setProcessingStatus _ st.1)).
  assert (Hc : coherent (commit s2)) by (apply commit_coherent; exact Hm).
  assert (Hs : settled (commit s2)) by apply commit_settled.
  destruct (extractDataFromImage file) as [newReport | err]; cbn [fst].
  - apply midway_unsettled.
    exact (setReports_unsettles (commit s2) (newReport :: reports (commit s2)) Hs).
  - intros _. exact Hc.
Qed.

Lemma forLoop_midway (files : list File) (i n : nat) (st : App * Tally) :
  midway st.1 → midway (forLoop i n files st).1.
Proof.
  revert i st. induction files as [|file files IH]; intros i st Hm; [done|].
  cbn [forLoop]. by apply IH, processFile_midway.
Qed.

Lemma handleFileSelect_coherent (files : list File) (s : App) :
  settled s → coherent s → coherent (handleFileSelect files s).
Proof.
  intros Hs Hc. unfold handleFileSelect, ingestBatch. cbn [fst].
  apply commit_coherent.
  pose proof (forLoop_midway files 0 (length files)
                (setError None (setIsProcessing true s),
                 {| successCount := 0; errorCount := 0 |})) as Hm.
  cbn [fst] in Hm. specialize (Hm (λ _, Hc)).
  by destruct (bool_decide _).
Qed.

Lemma step_coherent (s : App) (e : Event) :
  settled s → coherent s → coherent (step s e).
Proof.
  intros Hs Hc.
  destruct e as [newUrl | | res | files | id_ | confirmed | file confirmed | ok | dt];
    cbn [step].
  - (* handleUrlChange *)
    unfold handleUrlChange. apply commit_coherent.
    destruct (decide (newUrl = serverUrl s)) as [-> | Hne].
    + intros _. destruct Hc as [Hd Ht]. unfold handleServerFetch_sync.
      split.
      * unfold durable, persisted in *.
        destruct (truthy (serverUrl s)); cbn -[lookup insert];
          intros Hr; rewrite lookup_insert_ne by apply STORAGE_KEY_ne; by apply Hd.
      * destruct (truthy (serverUrl s)); exact Ht.
    + apply midway_unsettled. unfold settled in *. unfold handleServerFetch_sync.
      destruct (truthy newUrl); cbn; rewrite Hs; intros [=]; done.
  - (* onManualSync *)
    unfold onManualSync, handleServerFetch_start, handleServerFetch_sync.
    apply commit_coherent. intros _. by destruct (truthy (serverUrl s)).
  - (* handleServerFetch, after the await *)
    case_decide; [|done]. unfold handleServerFetch_resume. apply commit_coherent.
    destruct Hc as [Hd Ht].
    assert (Hkeep : coherent (set_isInitialLoad false s)).
    { split; [exact Hd|]. intros tm Htm. destruct (Ht tm Htm) as (? & ? & ? & ?).
      done. }
    destruct res as [[c|] | err]; [case_bool_decide | |].
    + apply midway_unsettled. unfold settled in *. cbn. rewrite Hs. intros [=]. lia.
    + intros _. exact Hkeep.
    + intros _. exact Hkeep.
    + intros _. exact Hkeep.
  - by apply handleFileSelect_coherent.
  - unfold handleRemoveReport. apply commit_coherent. by apply setReports_midway.
  - destruct confirmed; [|done]. cbn. apply commit_coherent.
    by apply midway_unsettled, clearAll_unsettles.
  - unfold handleImportBackup. destruct file as [text|]; [|done].
    destruct (JSON_parse text); [|done].
    destruct confirmed; [|done]. apply commit_coherent. by apply setReports_midway.
  - case_decide; [|done]. unfold pushSettled. apply commit_coherent.
    intros _. by destruct ok.
  - unfold elapse. destruct (timeoutId s) as [tm|] eqn:Htm; [|done].
    case_decide; [|done].
    unfold timerCallback. rewrite commit_id by exact Hs.
    destruct Hc as [Hd _]. split; [exact Hd|]. by intros tm'.
Qed.

Lemma initialize_midway (ls : gmap string string) (t0 : N) :
  let s0 := initialState ls t0 in
  midway (set_effectDeps (Some (reportsRef s0, serverUrl s0)) (initialize s0)).
Proof.
  cbn zeta. unfold initialize, handleServerFetch_sync.
  assert (Hl : ∀ u, loadCollection (setServerUrl u (initialState ls t0))
                    = loadCollection (initialState ls t0)) by done.
  assert (Hempty : ∀ s, reports s = [] → timeoutId s = None → coherent s).
  { intros s Hr Ht. split; [by intros ? | by intros tm; rewrite Ht]. }
  destruct (truthy_opt _) eqn:Hu; rewrite ?Hl;
    destruct (loadCollection (initialState ls t0)) as [[parsed|] []];
    repeat case_match;
    first [ by apply midway_unsettled; intros [=] | by intros _; apply Hempty ].
Qed.

Lemma mount_coherent (ls : gmap string string) (t0 : N) : coherent (mount ls t0).
Proof.
  unfold mount.
  change (reports (initialState ls t0)) with (@nil FlightReport).
  change (serverUrl (initialState ls t0)) with EmptyString at 1.
  rewrite autoSaveWith_first_render.
  apply commit_coherent, initialize_midway.
Qed.

Lemma run_coherent (es : list Event) (s : App) :
  settled s → coherent s → coherent (run s es).
Proof.
  revert s. induction es as [|e es IH]; intros s Hs Hc; [done|].
  cbn [run foldl]. apply IH; [by apply step_settled | by apply step_coherent].
Qed.

Lemma reachable_coherent (s : App) : reachable s → settled s ∧ coherent s.
Proof.
  intros (ls & t0 & es & ->). split.
  - apply run_settled, mount_settled.
  - apply run_coherent; [apply mount_settled | apply mount_coherent].
Qed.

Lemma processFile_sameSync (i n : nat) (file : File) (st : App * Tally) :
  sameSync st.1 (processFile i n file st).1.
Proof.
  unfold sameSync, processFile.
  destruct (extractDataFromImage file); cbn; by autorewrite with render.
Qed.

Lemma forLoop_sameSync (files : list File) (i n : nat) (st : App * Tally) :
  sameSync st.1 (forLoop i n files st).1.
Proof.
  revert i st. induction files as [|file files IH]; intros i st; [done|].
  cbn [forLoop]. unfold sameSync.
  destruct (IH (S i) (processFile i n file st)) as (-> & -> & -> & -> & -> & -> & ->).
  apply processFile_sameSync.
Qed.

Lemma handleFileSelect_sameSync (files : list File) (s : App) :
  sameSync s (handleFileSelect files s).
Proof.
  unfold handleFileSelect, ingestBatch. cbn [fst].
  pose proof (forLoop_sameSync files 0 (length files)
                (setError None (setIsProcessing true s),
                 {| successCount := 0; errorCount := 0 |})) as Hf.
  unfold sameSync in *. cbn [fst] in Hf.
  destruct Hf as (Hu & Hi & Hc & Hp & Hf & Hy & Hl).
  autorewrite with render.
  by destruct (bool_decide _).
Qed.

(** X1. In every state the component reaches, a collection that is not
    empty is what the Local Store holds under [aerolog_data_v1]. *)
Theorem nonempty_collection_is_stored
    (ls : gmap string string) (t0 : N) (es : list Event) :
  let s := run (mount ls t0) es in
  reports s ≠ [] →
  localStorage s !! STORAGE_KEY = Some (JSON_stringify (reports s)).
Proof.
  intros s Hne.
  destruct (reachable_coherent s) as [_ [Hd _]]; [by exists ls, t0, es|].
  by apply Hd.
Qed.

(** X2. In every state the component reaches, letting time pass makes at
    most one push, and that push goes to the endpoint configured now and
    carries the collection as it is now: a snapshot older than the last
    change is never uploaded. No handler other than the timer pushes. *)
Theorem push_carries_current_collection
    (ls : gmap string string) (t0 : N) (es : list Event) (dt : N) :
  let s := run (mount ls t0) es in
  (pushCalls (elapse dt s) = pushCalls s
   ∨ ∃ t, pushCalls (elapse dt s)
          = pushCalls s ++ [{| push_at := t; push_url := serverUrl s;
                               push_body := reports s |}]
          ∧ truthy (serverUrl s) = true)
  ∧ ∀ e, (∀ dt', e ≠ Elapse dt') → pushCalls (step s e) = pushCalls s.
Proof.
  intros s.
  destruct (reachable_coherent s) as [Hs [_ Ht]]; [by exists ls, t0, es|].
  split.
  - unfold elapse. destruct (timeoutId s) as [tm|] eqn:Htm; [|by left].
    case_decide; [|by left]. right.
    destruct (Ht tm Htm) as (Hu & Hr & Htr & _).
    exists (N.max (deadline tm) (clock s)). split; [|done].
    unfold timerCallback. rewrite commit_id by exact Hs. cbn.
    by rewrite Hu, Hr.
  - intros e He.
    destruct e as [newUrl | | res | files | id_ | confirmed | file confirmed | ok | dt'];
      cbn [step].
    + unfold handleUrlChange, handleServerFetch_sync. autorewrite with render.
      by case_match.
    + unfold onManualSync, handleServerFetch_start, handleServerFetch_sync.
      autorewrite with render. by case_match.
    + case_decide; [|done]. unfold handleServerFetch_resume.
      autorewrite with render. by repeat case_match.
    + by destruct (handleFileSelect_sameSync files s) as (_ & _ & _ & -> & _).
    + unfold handleRemoveReport. by autorewrite with render.
    + destruct confirmed; [|done]. cbn. by autorewrite with render.
    + unfold handleImportBackup. repeat case_match; try done.
      by autorewrite with render.
    + case_decide; [|done]. unfold pushSettled. autorewrite with render.
      by case_match.
    + by destruct (He dt').
Qed.

(** ** Without an endpoint *)

Lemma forLoop_pending (files : list File) (i n : nat) (st : App * Tally) :
  pendingFetches (forLoop i n files st).1 = pendingFetches st.1
  ∧ pendingPushes (forLoop i n files st).1 = pendingPushes st.1.
Proof.
  revert i st. induction files as [|file files IH]; intros i st; [done|].
  cbn [forLoop]. destruct (IH (S i) (processFile i n file st)) as [-> ->].
  unfold processFile. destruct (extractDataFromImage file); cbn;
    by autorewrite with render.
Qed.

Lemma mount_localOnly (ls : gmap string string) (t0 : N) :
  truthy_opt (ls !! SERVER_URL_KEY) = false → localOnly (mount ls t0).
Proof.
  intros Hu. unfold localOnly, mount.
  change (reports (initialState ls t0)) with (@nil FlightReport).
  change (serverUrl (initialState ls t0)) with EmptyString at 1.
  rewrite autoSaveWith_first_render. autorewrite with render.
  unfold initialize, localStorage_getItem. cbn [localStorage initialState].
  rewrite Hu.
  by destruct (loadCollection (initialState ls t0)) as [[parsed|] []].
Qed.

Lemma step_localOnly (s : App) (e : Event) :
  settled s → coherent s → keepsLocal e → localOnly s → localOnly (step s e).
Proof.
  intros Hs [_ Ht] Hk (Hu & Hf & Hp & Hpf & Hpp & Hy & Hl). unfold localOnly.
  destruct e as [newUrl | | res | files | id_ | confirmed | file confirmed | ok | dt];
    cbn [step].
  - cbn in Hk. subst newUrl. unfold handleUrlChange. autorewrite with render.
    by cbn.
  - unfold onManualSync, handleServerFetch_start, handleServerFetch_sync.
    rewrite Hu. autorewrite with render. by cbn.
  - rewrite decide_False by lia. done.
  - destruct (handleFileSelect_sameSync files s) as (-> & _ & _ & -> & -> & -> & ->).
    unfold handleFileSelect, ingestBatch. cbn [fst]. autorewrite with render.
    destruct (forLoop_pending files 0 (length files)
                (setError None (setIsProcessing true s),
                 {| successCount := 0; errorCount := 0 |})) as [Hpf' Hpp'].
    cbn [fst] in *. by destruct (bool_decide _); cbn; rewrite ?Hpf', ?Hpp'.
  - unfold handleRemoveReport. by autorewrite with render.
  - destruct confirmed; [|done]. cbn. by autorewrite with render.
  - unfold handleImportBackup. repeat case_match; try done.
    by autorewrite with render.
  - rewrite decide_False by lia. done.
  - unfold elapse. destruct (timeoutId s) as [tm|] eqn:Htm; [|done].
    destruct (Ht tm Htm) as (_ & _ & Htr & _). by rewrite Hu in Htr.
Qed.

(** X3. A session that starts with no endpoint stored and never enters one
    stays local: whatever is ingested, removed, cleared, imported, and
    however long one waits, no fetch and no push are ever made, and the
    sync status stays [idle] with no sync time. *)
Theorem local_session_never_syncs
    (ls : gmap string string) (t0 : N) (es : list Event) :
  truthy_opt (ls !! SERVER_URL_KEY) = false →
  Forall keepsLocal es →
  let s := run (mount ls t0) es in
  serverUrl s = "" ∧ fetchCalls s = [] ∧ pushCalls s = []
  ∧ syncStatus s = SyncIdle ∧ lastSyncTime s = None.
Proof.
  intros Hu Hes.
  assert (Hrun : ∀ s, settled s → coherent s → localOnly s → localOnly (run s es)).
  { clear Hu. induction Hes as [|e es He Hes IH]; intros s Hs Hc Hl; [done|].
    cbn [run foldl].
    apply IH; [by apply step_settled | by apply step_coherent | by apply step_localOnly]. }
  destruct (Hrun (mount ls t0)) as (? & ? & ? & _ & _ & ? & ?);
    [apply mount_settled | apply mount_coherent | by apply mount_localOnly | done].
Qed.

(** ** Startup *)

Lemma commit_lookup_other (k : string) (s : App) :
  k ≠ STORAGE_KEY → localStorage (commit s) !! k = localStorage s !! k.
Proof.
  intros Hk. destruct (decide (settled s)) as [Hs|Hs].
  - by rewrite commit_id.
  - rewrite commit_changed_localStorage by done.
    case_bool_decide; [by rewrite lookup_insert_ne | done].
Qed.

Lemma commit_localStorage_empty (s : App) :
  reports s = [] → localStorage (commit s) = localStorage s.
Proof.
  intros Hr. destruct (decide (settled s)) as [Hs|Hs].
  - by rewrite commit_id.
  - rewrite commit_changed_localStorage by done. by rewrite Hr.
Qed.

(** The second render of a mount is the render of what [initialize] did. *)
Lemma mount_unfold (ls : gmap string string) (t0 : N) :
  mount ls t0
  = commit (set_effectDeps (Some (0, EmptyString)) (initialize (initialState ls t0))).
Proof. reflexivity. Qed.

Lemma mount_serverUrl (ls : gmap string string) (t0 : N) :
  serverUrl (mount ls t0)
  = if truthy_opt (ls !! SERVER_URL_KEY) then default "" (ls !! SERVER_URL_KEY) else "".
Proof.
  rewrite mount_unfold. autorewrite with render.
  unfold initialize, handleServerFetch_sync, localStorage_getItem.
  cbn [localStorage initialState].
  assert (Hl : ∀ u, loadCollection (setServerUrl u (initialState ls t0))
                    = loadCollection (initialState ls t0)) by done.
  destruct (truthy_opt _); rewrite ?Hl;
    destruct (loadCollection (initialState ls t0)) as [[parsed|] []];
    by repeat case_match.
Qed.

Lemma commit_guarded (s : App) :
  isInitialLoad s = true → timeoutId s = None → timeoutId (commit s) = None.
Proof.
  intros Hi Ht. destruct (decide (settled s)) as [Hs|Hs].
  - by rewrite commit_id.
  - rewrite commit_changed_timeoutId by done. by rewrite Hi, andb_false_r.
Qed.

Lemma forLoop_timeoutId_guarded (files : list File) (i n : nat) (st : App * Tally) :
  isInitialLoad st.1 = true → timeoutId st.1 = None →
  timeoutId (forLoop i n files st).1 = None.
Proof.
  revert i st. induction files as [|file files IH]; intros i st Hi Ht; [done|].
  cbn [forLoop]. apply IH.
  - destruct (processFile_sameSync i n file st) as (_ & -> & _). done.
  - unfold processFile.
    destruct (extractDataFromImage file); cbn; by apply commit_guarded.
Qed.

Lemma step_guarded (s : App) (e : Event) :
  beforeAnyPullSettles e → guarded s → guarded (step s e).
Proof.
  intros He (Hi & Ht & Hp). unfold guarded.
  destruct e as [newUrl | | res | files | id_ | confirmed | file confirmed | ok | dt];
    cbn [step].
  - unfold handleUrlChange, handleServerFetch_sync. autorewrite with render.
    split_and!; [by case_match | | by case_match].
    apply commit_guarded; by case_match.
  - unfold onManualSync, handleServerFetch_start, handleServerFetch_sync.
    autorewrite with render.
    split_and!; [by case_match | | by case_match].
    apply commit_guarded; by case_match.
  - done.
  - destruct (handleFileSelect_sameSync files s) as (_ & -> & _ & -> & _).
    split_and!; [done | | done].
    unfold handleFileSelect, ingestBatch. cbn [fst].
    pose proof (forLoop_sameSync files 0 (length files)
                  (setError None (setIsProcessing true s),
                   {| successCount := 0; errorCount := 0 |})) as (_ & Hi' & _).
    pose proof (forLoop_timeoutId_guarded files 0 (length files)
                  (setError None (setIsProcessing true s),
                   {| successCount := 0; errorCount := 0 |}) Hi Ht) as Ht'.
    cbn [fst] in Hi', Ht'.
    apply commit_guarded; case_match; cbn; by rewrite ?Hi', ?Ht'.
  - unfold handleRemoveReport. autorewrite with render.
    split_and!; [done | by apply commit_guarded | done].
  - destruct confirmed; [|done]. cbn. autorewrite with render.
    split_and!; [done | by apply commit_guarded | done].
  - unfold handleImportBackup. repeat case_match; try done.
    autorewrite with render.
    split_and!; [done | by apply commit_guarded | done].
  - case_decide; [|done]. unfold pushSettled. autorewrite with render.
    split_and!; [by case_match | | by case_match].
    apply commit_guarded; by case_match.
  - unfold elapse. by rewrite Ht.
Qed.

(** X4. Started on storage that holds an endpoint, the component makes
    that endpoint its [serverUrl], begins exactly one pull from it and
    shows [syncing], with the initial-load guard set. From then on, until
    some pull settles, the guard stays set, no push timer is pending and no
    push is made, whatever else happens: mutations, imports, endpoint
    changes, manual syncs, time passing. *)
Theorem startup_with_endpoint
    (ls : gmap string string) (t0 : N) (url : string) (es : list Event) :
  ls !! SERVER_URL_KEY = Some url →
  url ≠ "" →
  Forall beforeAnyPullSettles es →
  let s := mount ls t0 in
  (serverUrl s = url ∧ fetchCalls s = [url] ∧ pendingFetches s = 1
   ∧ syncStatus s = SyncSyncing)
  ∧ guarded (run s es).
Proof.
  intros Hls Hurl Hes s.
  assert (Htr : truthy url = true) by (unfold truthy; by rewrite bool_decide_eq_true_2).
  assert (Hframe : serverUrl s = url ∧ fetchCalls s = [url] ∧ pendingFetches s = 1
                   ∧ syncStatus s = SyncSyncing ∧ isInitialLoad s = true
                   ∧ pushCalls s = []).
  { subst s. rewrite mount_unfold. autorewrite with render.
    unfold initialize, handleServerFetch_sync, localStorage_getItem.
    cbn [localStorage initialState]. rewrite Hls.
    cbn [truthy_opt default from_option]. unfold Datatypes.id.
    rewrite Htr. cbv iota.
    assert (Hl : loadCollection (setServerUrl url (initialState ls t0))
                 = loadCollection (initialState ls t0)) by done.
    rewrite Hl.
    by destruct (loadCollection (initialState ls t0)) as [[parsed|] []]. }
  destruct Hframe as (Hu & Hf & Hpf & Hy & Hi & Hp).
  split; [done|].
  assert (Hg : guarded s).
  { split_and!; [done | | done].
    destruct (mount_coherent ls t0) as [_ Ht].
    destruct (timeoutId s) as [tm|] eqn:Htm; [|done].
    destruct (Ht tm Htm) as (_ & _ & _ & Hi'). fold s in Hi'. congruence. }
  assert (Hrun : ∀ s0, guarded s0 → guarded (run s0 es)).
  { clear -Hes. induction Hes as [|e es He Hes IH]; intros s0 Hg0; [done|].
    cbn [run foldl]. by apply IH, step_guarded. }
  by apply Hrun.
Qed.

(** X5. Started on storage from which no collection loads, the component
    writes nothing back: the entry, an unparsable text included, is left as
    it is. An unparsable text is reported once on the console, as the label
    [Failed to load local data] followed by the exception [JSON.parse]
    threw; a missing or empty entry is not reported. *)
Theorem unreadable_storage_is_kept (ls : gmap string string) (t0 : N) :
  unreadable ls →
  localStorage (mount ls t0) = ls
  ∧ console (mount ls t0)
    = match ls !! STORAGE_KEY with
      | Some savedData =>
          if truthy savedData
          then ["Failed to load local data " +:+ JSON_parse_exception savedData]
          else []
      | None => []
      end.
Proof.
  intros Hls.
  assert (Hload : ∃ b, loadCollection (initialState ls t0) = (None, b)
                       ∧ b = match ls !! STORAGE_KEY with
                             | Some savedData => truthy savedData
                             | None => false
                             end).
  { unfold loadCollection, localStorage_getItem. cbn [localStorage initialState].
    destruct Hls as [-> | [-> | (savedData & -> & Hparse)]]; [by eexists.. |].
    rewrite Hparse. destruct (truthy savedData); by eexists. }
  destruct Hload as (b & Hload & Hb).
  assert (Hl : ∀ u, loadCollection (setServerUrl u (initialState ls t0))
                    = loadCollection (initialState ls t0)) by done.
  rewrite mount_unfold. autorewrite with render.
  split.
  - rewrite commit_localStorage_empty.
    + unfold initialize, handleServerFetch_sync.
      destruct (truthy_opt _); rewrite ?Hl, Hload; destruct b; by repeat case_match.
    + unfold initialize, handleServerFetch_sync.
      destruct (truthy_opt _); rewrite ?Hl, Hload; destruct b; by repeat case_match.
  - unfold initialize, handleServerFetch_sync, localStorage_getItem.
    destruct (truthy_opt _); rewrite ?Hl, Hload;
      destruct (ls !! STORAGE_KEY) as [savedData|] eqn:Hk; subst b;
      try destruct (truthy savedData); repeat case_match; try done;
      cbn -[lookup]; by rewrite Hk.
Qed.

(** X6. The endpoint survives a restart: after [handleUrlChange(url)] the
    next start of the component on the same storage has [serverUrl = url],
    pulls from it when it is not empty, and makes no fetch when it is. *)
Theorem endpoint_survives_restart (url : string) (s : App) (t0 : N) :
  let s' := mount (localStorage (handleUrlChange url s)) t0 in
  serverUrl s' = url
  ∧ fetchCalls s' = (if truthy url then [url] else []).
Proof.
  cbn zeta.
  assert (Hk : localStorage (handleUrlChange url s) !! SERVER_URL_KEY = Some url).
  { unfold handleUrlChange. rewrite commit_lookup_other by done.
    unfold handleServerFetch_sync, localStorage_setItem.
    destruct (truthy url); cbn -[lookup insert]; by rewrite lookup_insert_eq. }
  split.
  - rewrite mount_serverUrl, Hk. cbn [truthy_opt default from_option]. unfold Datatypes.id.
    unfold truthy. case_bool_decide as Hu; [done|].
    destruct (decide (url = "")) as [->|]; [done|]. by destruct Hu.
  - rewrite mount_unfold. autorewrite with render.
    unfold initialize, handleServerFetch_sync, localStorage_getItem.
    cbn [localStorage initialState]. rewrite Hk. cbn [truthy_opt default from_option]. unfold Datatypes.id.
    set (ls := localStorage (handleUrlChange url s)).
    assert (Hl : ∀ u, loadCollection (setServerUrl u (initialState ls t0))
                      = loadCollection (initialState ls t0)) by done.
    destruct (truthy url); rewrite ?Hl;
      by destruct (loadCollection (initialState ls t0)) as [[parsed|] []].
Qed.

(** ** Endpoint changes *)

(** A due timer fires once, at its deadline, with what it closed over. *)
Lemma elapse_due (dt : N) (tm : Timer) (s : App) :
  settled s → timeoutId s = Some tm → (deadline tm ≤ clock s + dt)%N →
  pushCalls (elapse dt s)
  = pushCalls s ++ [{| push_at := N.max (deadline tm) (clock s);
                       push_url := timer_url tm; push_body := timer_reports tm |}]
  ∧ timeoutId (elapse dt s) = None.
Proof.
  intros Hs Ht Hd. unfold elapse. rewrite Ht, decide_True by done.
  unfold timerCallback. rewrite commit_id by exact Hs. done.
Qed.

Lemma elapse_idle (dt : N) (s : App) :
  timeoutId s = None → elapse dt s = set_clock (clock s + dt)%N s.
Proof. intros Ht. unfold elapse. by rewrite Ht. Qed.

(** X7. Clearing a configured endpoint returns the component to local
    mode: the empty URL is stored, the status is [idle], no pull is started,
    the pending push is cancelled and none is made however long one waits. *)
Theorem clearing_endpoint_cancels_push (s : App) (dt : N) :
  settled s →
  truthy (serverUrl s) = true →
  let s' := handleUrlChange "" s in
  serverUrl s' = "" ∧ localStorage s' !! SERVER_URL_KEY = Some ""
  ∧ syncStatus s' = SyncIdle ∧ fetchCalls s' = fetchCalls s
  ∧ timeoutId s' = None ∧ pushCalls (elapse dt s') = pushCalls s.
Proof.
  intros Hs Hu s'. subst s'. unfold handleUrlChange.
  assert (Hne : ¬ settled (setSyncStatus SyncIdle
                  (localStorage_setItem SERVER_URL_KEY "" (setServerUrl "" s)))).
  { unfold settled in *. cbn. rewrite Hs. intros [= Heq]. by rewrite Heq in Hu. }
  assert (Ht : timeoutId (commit (setSyncStatus SyncIdle
                  (localStorage_setItem SERVER_URL_KEY "" (setServerUrl "" s)))) = None)
    by (by rewrite commit_changed_timeoutId).
  cbn [truthy bool_decide].
  change (truthy "") with false in *. cbv iota.
  split_and!.
  - by autorewrite with render.
  - rewrite commit_lookup_other by done. unfold localStorage_setItem.
    cbn -[lookup insert]. by rewrite lookup_insert_eq.
  - by autorewrite with render.
  - by autorewrite with render.
  - exact Ht.
  - rewrite elapse_idle by exact Ht. cbn. by autorewrite with render.
Qed.

(** X8. Entering a new endpoint after the initial load schedules an upload
    of the local collection to it; when the pull from the new endpoint
    settles within the second with nothing, the local collection is kept
    and is pushed to the new endpoint one second after the change. *)
Theorem new_endpoint_receives_local_collection
    (s : App) (url : string) (remote : option (list FlightReport)) (gap dt : N) :
  settled s →
  isInitialLoad s = false →
  truthy url = true →
  url ≠ serverUrl s →
  remote = None ∨ remote = Some [] →
  (gap < 1000)%N →
  (1000 ≤ gap + dt)%N →
  let s1 := handleUrlChange url s in
  let s2 := handleServerFetch_resume (Fetched remote) (elapse gap s1) in
  fetchCalls s1 = fetchCalls s ++ [url]
  ∧ reports s2 = reports s
  ∧ pushCalls (elapse dt s2)
    = pushCalls s ++ [{| push_at := (clock s + 1000)%N; push_url := url;
                         push_body := reports s |}].
Proof.
  intros Hs Hi Hu Hne Hr Hg Hd s1 s2.
  assert (Hbody : ¬ settled (handleServerFetch_sync url
                    (localStorage_setItem SERVER_URL_KEY url (setServerUrl url s)))).
  { unfold settled, handleServerFetch_sync in *. rewrite Hu. cbn. rewrite Hs.
    intros [= Heq]. by destruct Hne. }
  assert (Hs1 : settled s1) by apply commit_settled.
  assert (Ht1 : timeoutId s1 = Some {| deadline := (clock s + 1000)%N;
                                       timer_url := url; timer_reports := reports s |}).
  { subst s1. unfold handleUrlChange. rewrite Hu.
    rewrite commit_changed_timeoutId by exact Hbody.
    unfold handleServerFetch_sync. rewrite Hu. cbn. by rewrite Hu, Hi. }
  assert (Hf1 : fetchCalls s1 = fetchCalls s ++ [url] ∧ reports s1 = reports s
                ∧ clock s1 = clock s ∧ pushCalls s1 = pushCalls s).
  { subst s1. unfold handleUrlChange, handleServerFetch_sync. rewrite Hu.
    by autorewrite with render. }
  destruct Hf1 as (Hf & Hr1 & Hc1 & Hp1).
  assert (He : elapse gap s1 = set_clock (clock s1 + gap)%N s1).
  { unfold elapse. rewrite Ht1. cbn [deadline]. rewrite decide_False by lia. done. }
  assert (H2 : timeoutId s2 = timeoutId s1 ∧ clock s2 = (clock s + gap)%N
               ∧ reports s2 = reports s ∧ pushCalls s2 = pushCalls s ∧ settled s2).
  { subst s2. rewrite He. unfold handleServerFetch_resume.
    rewrite commit_id by (by destruct Hr as [-> | ->]).
    by destruct Hr as [-> | ->]; cbn; rewrite ?Hc1, ?Hr1, ?Hp1. }
  destruct H2 as (Ht2 & Hc2 & Hr2 & Hp2 & Hs2).
  split_and!; [done | done |].
  destruct (elapse_due dt _ s2 Hs2 (eq_trans Ht2 Ht1)) as [-> _];
    [cbn [deadline]; lia |].
  cbn [deadline timer_url timer_reports]. rewrite Hp2, Hc2.
  by replace (N.max (clock s + 1000) (clock s + gap)) with (clock s + 1000)%N by lia.
Qed.

(** ** Clearing and removing *)

(** X9. A confirmed [Clear All] empties the collection, clears the error
    banner and removes the Local Store entry, so that the next start of the
    component begins with the empty collection. *)
Theorem clear_all_survives_restart (s : App) (t0 : N) :
  settled s →
  let s' := handleClearAll true s in
  reports s' = [] ∧ error s' = None
  ∧ localStorage s' !! STORAGE_KEY = None
  ∧ reports (mount (localStorage s') t0) = [].
Proof.
  intros Hs s'. destruct (clearAll_erases s Hs) as [Hr Hk].
  change (mutate clearAll s) with s' in *.
  split_and!; [done | | done |].
  - subst s'. cbn. by autorewrite with render.
  - rewrite mount_reports. unfold loadCollection, localStorage_getItem.
    cbn [localStorage initialState]. by rewrite Hk.
Qed.

(** X10. With an endpoint configured and the initial load over, a
    confirmed [Clear All] is followed one second later by a push of the
    empty collection: the copy on the server is emptied as well. *)
Theorem clear_all_empties_server (s : App) (dt : N) :
  settled s →
  truthy (serverUrl s) = true →
  isInitialLoad s = false →
  (1000 ≤ dt)%N →
  pushCalls (elapse dt (handleClearAll true s))
  = pushCalls s ++ [{| push_at := (clock s + 1000)%N; push_url := serverUrl s;
                       push_body := [] |}].
Proof.
  intros Hs Hu Hi Hd.
  change (handleClearAll true s) with (mutate clearAll s).
  destruct (elapse_fires dt _ (mutate_armed clearAll s Hs Hu Hi) Hd) as [-> _].
  destruct (mutate_frame clearAll s) as (-> & _ & -> & ->).
  by rewrite mutate_reports.
Qed.

(** X11. [handleRemoveReport(id)] removes every report with that
    identifier and nothing else: the other reports stay, in their order; an
    identifier the collection does not hold leaves it as it was; removing
    twice is removing once. *)
Theorem remove_report_removes_only_that_id (id_ : string) (s : App) :
  let s' := handleRemoveReport id_ s in
  (∀ r, r ∈ reports s' ↔ r ∈ reports s ∧ id r ≠ id_)
  ∧ reports s' `sublist_of` reports s
  ∧ (id_ ∉ id <$> reports s → reports s' = reports s)
  ∧ reports (handleRemoveReport id_ s') = reports s'.
Proof.
  cbn zeta. unfold handleRemoveReport. autorewrite with render. cbn.
  split_and!.
  - intros r. rewrite list_elem_of_filter. tauto.
  - apply sublist_filter.
  - intros Hnot. induction (reports s) as [|r c IH]; [done|].
    rewrite filter_cons. rewrite fmap_cons, not_elem_of_cons in Hnot.
    destruct Hnot as [Hr Hc].
    destruct (decide (id r ≠ id_)) as [Hd|Hd]; [by rewrite IH | destruct Hd; congruence].
  - rewrite commit_reports. cbn.
    induction (reports s) as [|r c IH]; [done|].
    rewrite filter_cons. case_decide; [|exact IH].
    rewrite filter_cons, decide_True by done. by rewrite IH.
Qed.

(** ** A push, from timer to settlement *)

(** X12. When the debounce timer fires the status becomes [syncing] and
    one push is in flight. When that push settles the status is [synced]
    and [lastSyncTime] the instant of settlement, or the status is [error]
    and [lastSyncTime] unchanged; the collection and the Local Store are
    untouched either way, and a failed push is not retried: no further
    push is made however long one waits. *)
Theorem push_settles_without_retry (s : App) (ok : bool) (dt dt' : N) :
  armed s →
  (1000 ≤ dt)%N →
  let s1 := elapse dt s in
  let s2 := pushSettled ok s1 in
  (syncStatus s1 = SyncSyncing ∧ pendingPushes s1 = S (pendingPushes s))
  ∧ syncStatus s2 = (if ok then SyncSynced else SyncError)
  ∧ lastSyncTime s2 = (if ok then Some (clock s + dt)%N else lastSyncTime s)
  ∧ reports s2 = reports s ∧ localStorage s2 = localStorage s
  ∧ pushCalls (elapse dt' s2) = pushCalls s1.
Proof.
  intros [Hs Ht] Hd s1 s2.
  assert (H1 : s1 = set_clock (clock s + dt)%N
                 (set_pendingPushes (S (pendingPushes s))
                    (set_pushCalls (pushCalls s ++
                       [{| push_at := N.max (clock s + 1000) (clock s);
                           push_url := serverUrl s; push_body := reports s |}])
                       (setSyncStatus SyncSyncing
                          (set_timeoutId None
                             (set_clock (N.max (clock s + 1000) (clock s)) s)))))).
  { subst s1. unfold elapse. rewrite Ht. cbn [deadline].
    rewrite decide_True by lia. unfold timerCallback.
    rewrite commit_id by exact Hs. done. }
  assert (H2 : s2 = (if ok then setLastSyncTime (clock s + dt)%N
                                  (setSyncStatus SyncSynced
                                     (set_pendingPushes (pendingPushes s) s1))
                     else setSyncStatus SyncError
                            (set_pendingPushes (pendingPushes s) s1))).
  { subst s2. unfold pushSettled. rewrite H1.
    rewrite commit_id by (destruct ok; exact Hs). by destruct ok. }
  split; [by rewrite H1|].
  rewrite H2, H1. destruct ok; cbn; by split_and!.
Qed.

(** ** Ingestion, what else it does *)

Lemma forLoop_console (files : list File) (i n : nat) (st : App * Tally) :
  console (forLoop i n files st).1 = console st.1 ++ omap failure files.
Proof.
  revert i st. induction files as [|file files IH]; intros i st.
  - cbn. by rewrite app_nil_r.
  - cbn [forLoop omap list_omap]. rewrite IH. unfold processFile, failure at 2.
    destruct (extractDataFromImage file); cbn; autorewrite with render; cbn;
      [done | by rewrite <- app_assoc].
Qed.

(** X13. Whatever the batch, when [handleFileSelect] is done the
    processing flag is down and the progress text is empty, and the console
    has received one line for each document that failed, in input order,
    naming the file and the cause; nothing is alerted. *)
Theorem ingest_logs_each_failure (files : list File) (s : App) :
  let s' := handleFileSelect files s in
  isProcessing s' = false ∧ processingStatus s' = ""
  ∧ console s' = console s ++ omap failure files
  ∧ length (omap failure files) = length (rejected files)
  ∧ alerts s' = alerts s.
Proof.
  cbn zeta. unfold handleFileSelect, ingestBatch. cbn [fst].
  autorewrite with render.
  pose proof (forLoop_console files 0 (length files)
                (setError None (setIsProcessing true s),
                 {| successCount := 0; errorCount := 0 |})) as Hc.
  cbn [fst] in Hc.
  assert (Ha : ∀ i n st, alerts (forLoop i n files st).1 = alerts st.1).
  { clear. induction files as [|file files IH]; intros i n st; [done|].
    cbn [forLoop]. rewrite IH. unfold processFile.
    destruct (extractDataFromImage file); cbn; by autorewrite with render. }
  specialize (Ha 0 (length files) (setError None (setIsProcessing true s),
                                   {| successCount := 0; errorCount := 0 |})).
  cbn [fst] in Ha.
  split_and!.
  - by case_match.
  - by case_match.
  - case_match; cbn; by rewrite Hc.
  - unfold rejected, failure, extracted. clear.
    induction files as [|file files IH]; [done|].
    cbn [omap list_omap]. rewrite filter_cons.
    destruct (extractDataFromImage file);
      [rewrite decide_False by done | rewrite decide_True by done]; cbn; by rewrite IH.
  - case_match; cbn; by rewrite Ha.
Qed.

(** ** The initial-load guard *)

(** X14. Every pull that settles, whatever it brings, clears the
    [isInitialLoad] guard, and nothing the component does afterwards sets
    it again. *)
Theorem guard_is_never_rearmed (s : App) (res : FetchResult) (es : list Event) :
  isInitialLoad (handleServerFetch_resume res s) = false
  ∧ (isInitialLoad s = false → isInitialLoad (run s es) = false).
Proof.
  split.
  - unfold handleServerFetch_resume. by autorewrite with render.
  - revert s. induction es as [|e es IH]; intros s Hi; [done|].
    cbn [run foldl]. apply IH.
    destruct e as [newUrl | | res' | files | id_ | confirmed | file confirmed | ok | dt];
      cbn [step].
    + unfold handleUrlChange, handleServerFetch_sync. autorewrite with render.
      by case_match.
    + unfold onManualSync, handleServerFetch_start, handleServerFetch_sync.
      autorewrite with render. by case_match.
    + case_decide; [|done]. unfold handleServerFetch_resume.
      by autorewrite with render.
    + by destruct (handleFileSelect_sameSync files s) as (_ & -> & _).
    + unfold handleRemoveReport. by autorewrite with render.
    + destruct confirmed; [|done]. cbn. by autorewrite with render.
    + unfold handleImportBackup. repeat case_match; try done.
      by autorewrite with render.
    + case_decide; [|done]. unfold pushSettled. autorewrite with render.
      by case_match.
    + unfold elapse, timerCallback. repeat case_match; cbn;
        by autorewrite with render.
Qed.

(** ** A pull while a push is pending *)

(** X15. A pull that arrives while the push of a local change is still
    pending replaces the changed collection with the remote one and takes
    over the timer: the only push that follows carries the remote
    collection, one second after the pull; the local change is never
    uploaded. *)
Theorem pull_overrides_pending_change
    (s : App) (m : Mutation) (B : list FlightReport) (gap dt : N) :
  settled s →
  truthy (serverUrl s) = true →
  isInitialLoad s = false →
  (gap < 1000)%N →
  B ≠ [] →
  (1000 ≤ dt)%N →
  let s1 := elapse gap (mutate m s) in
  let s2 := handleServerFetch_resume (Fetched (Some B)) s1 in
  pushCalls s1 = pushCalls s
  ∧ reports s2 = B
  ∧ pushCalls (elapse dt s2)
    = pushCalls s ++ [{| push_at := (clock s + gap + 1000)%N;
                         push_url := serverUrl s; push_body := B |}].
Proof.
  intros Hs Hu Hi Hg HB Hd s1 s2.
  destruct (mutate_frame m s) as (Hu' & Hi' & Hc' & Hp').
  assert (He : s1 = set_clock (clock (mutate m s) + gap)%N (mutate m s))
    by (apply elapse_quiet; [by apply mutate_armed | done]).
  assert (Hs1 : settled s1) by (rewrite He; apply mutate_settled).
  assert (Hu1 : truthy (serverUrl s1) = true) by (by rewrite He; cbn; rewrite Hu').
  split_and!.
  - by rewrite He.
  - subst s2. unfold handleServerFetch_resume.
    rewrite bool_decide_eq_true_2 by (destruct B; [done | cbn; lia]).
    by autorewrite with render.
  - subst s2. rewrite (pull_then_push s1 B dt Hs1 Hu1 HB Hd).
    rewrite He. cbn. by rewrite Hp', Hc', Hu'.
Qed.

(** ** Restart *)

(** X16. Whatever the session did, a collection that is not empty is what
    the next start of the component loads from the storage the session
    left, provided the platform's JSON gives that collection back. *)
Theorem restart_restores_collection
    (ls : gmap string string) (t0 t1 : N) (es : list Event) :
  let s := run (mount ls t0) es in
  reports s ≠ [] →
  survivesJSON (reports s) →
  reports (mount (localStorage s) t1) = reports s.
Proof.
  intros s Hne [Hparse Htext].
  destruct (reachable_coherent s) as [_ [Hd _]]; [by exists ls, t0, es|].
  rewrite mount_reports. unfold loadCollection, localStorage_getItem.
  cbn [localStorage initialState]. rewrite (Hd Hne). unfold truthy.
  rewrite bool_decide_eq_true_2 by done. by rewrite Hparse.
Qed.

End Coverage.

(** * The component on the sample platform *)

Section Scenarios.
Local Existing Instance browser.

(** ** Defects *)

(** C1. A manual sync that brings a collection from the server is followed,
    one second later, by a push of that very collection back to the
    endpoint. Here the component started with the endpoint configured and
    the server unreachable; a minute later the operator asks for a sync and
    the server answers with one report. *)
Theorem manual_pull_triggers_push :
  let s0 := run (mount {[ SERVER_URL_KEY := endpoint ]} 0)
              [FetchSettled (FetchRejected "offline"); Elapse 60000] in
  let s1 := run s0 [ManualSync; FetchSettled (Fetched (Some [pfr "A"]))] in
  (reports s0 = [] ∧ pushCalls s0 = [] ∧ timeoutId s0 = None)
  ∧ (reports s1 = [pfr "A"] ∧ pushCalls s1 = []
     ∧ timeoutId s1 = Some {| deadline := 61000; timer_url := endpoint;
                              timer_reports := [pfr "A"] |})
  ∧ pushCalls (step s1 (Elapse 1000))
    = [{| push_at := 61000; push_url := endpoint; push_body := [pfr "A"] |}].
Proof. vm_compute. done. Qed.

(** The same at startup: the guard is still set while the fetch is in
    flight, and cleared by [finally] before the render that follows
    [setReports(serverReports)]. *)
Lemma startup_pull_triggers_push :
  let s0 := mount {[ SERVER_URL_KEY := endpoint ]} 0 in
  let s1 := step s0 (FetchSettled (Fetched (Some [pfr "A"]))) in
  (isInitialLoad s0 = true ∧ pendingFetches s0 = 1 ∧ timeoutId s0 = None)
  ∧ (reports s1 = [pfr "A"] ∧ isInitialLoad s1 = false)
  ∧ pushCalls (step s1 (Elapse 1000))
    = [{| push_at := 1000; push_url := endpoint; push_body := [pfr "A"] |}].
Proof. vm_compute. done. Qed.

(** And on reconfiguration: the operator enters the endpoint, the server
    answers within the second with its own collection, which replaces the
    local one and is then pushed back. *)
Lemma reconfiguration_pull_triggers_push :
  let s0 := mount {[ STORAGE_KEY := JSON.stringify [pfr "A"] ]} 0 in
  let s1 := run s0 [UrlChange endpoint; Elapse 200;
                    FetchSettled (Fetched (Some [pfr "B"]))] in
  reports s0 = [pfr "A"]
  ∧ reports s1 = [pfr "B"]
  ∧ pushCalls (step s1 (Elapse 1000))
    = [{| push_at := 1200; push_url := endpoint; push_body := [pfr "B"] |}].
Proof. vm_compute. done. Qed.

(** C2. Removing the only report leaves the collection empty and the Local
    Store as it was: the entry still holds the removed report, and the next
    start of the component loads it again. *)
Theorem remove_last_record_not_persisted :
  let s0 := mount {[ STORAGE_KEY := JSON.stringify [pfr "A"] ]} 0 in
  let s1 := step s0 (RemoveReport "A") in
  reports s0 = [pfr "A"]
  ∧ reports s1 = []
  ∧ localStorage s1 !! STORAGE_KEY = Some (JSON.stringify [pfr "A"])
  ∧ ¬ persisted (reports s1) s1
  ∧ reports (mount (localStorage s1) 1) = [pfr "A"].
Proof.
  cbn zeta. split_and!; vm_compute; done.
Qed.

(** So does an import of an empty backup. *)
Lemma import_empty_not_persisted :
  let s0 := mount {[ STORAGE_KEY := JSON.stringify [pfr "A"] ]} 0 in
  let s1 := step s0 (ImportBackup (Some "[]") true) in
  reports s1 = []
  ∧ localStorage s1 !! STORAGE_KEY = Some (JSON.stringify [pfr "A"]).
Proof. vm_compute. done. Qed.

(** C8. A stored entry that is valid JSON but not an array is not caught
    by the loader: for the text [null], [JSON.parse] returns without
    throwing, so [catch] does not run and [setReports(null)] is made; the
    read of [reports.length] by the effect and by the render then throws a
    [TypeError]. The import path would have refused that value, since
    [Array.isArray] is false of it. *)
Theorem stored_null_breaks_render :
  loadStored (Some "null") = SetReports JSON.Null
  ∧ dot_length JSON.Null = TypeError
  ∧ Array_isArray JSON.Null = false.
Proof. vm_compute. done. Qed.

(** The same for every text that [JSON.parse] reads as [null]. *)
Lemma loadStored_null (text : string) :
  truthy text = true → JSON.parse text = Some JSON.Null →
  ∃ v, loadStored (Some text) = SetReports v ∧ dot_length v = TypeError.
Proof.
  intros Ht Hp. exists JSON.Null. unfold loadStored. by rewrite Ht, Hp.
Qed.

(** Where the typed loader stands for the loader on values: on a missing
    or empty entry, on a text [JSON.parse] throws on, and on a text it
    reads as an array of reports. *)
Lemma loadCollection_agrees (ls : gmap string string) (t0 : N) :
  match loadStored (ls !! STORAGE_KEY) with
  | NothingStored => loadCollection (initialState ls t0) = (None, false)
  | ParseThrew => loadCollection (initialState ls t0) = (None, true)
  | SetReports (JSON.Arr xs) =>
      ∀ c, mapM (M := option) JSON.to_report xs = Some c →
           loadCollection (initialState ls t0) = (Some c, false)
  | SetReports _ => True
  end.
Proof.
  unfold loadStored, loadCollection, localStorage_getItem.
  cbn [localStorage initialState JSON_parse browser].
  destruct (ls !! STORAGE_KEY) as [text|]; [|done].
  destruct (truthy text); [|done].
  unfold JSON.parse_reports.
  destruct (JSON.parse text) as [[| | | |xs|]|]; try done.
  by intros c ->.
Qed.

(** ** Counterexamples *)

(** C7 as stated fails while the initial load is in progress: the endpoint
    is configured, the startup fetch has not settled, the operator removes
    a report, and no push follows. *)
Lemma debounce_not_during_initial_load :
  ¬ debounceClaim (mount stored 0) (removeRecord "A") [].
Proof.
  intros Hc. destruct Hc as (_ & _ & Hpush).
  - vm_compute. done.
  - vm_compute. done.
  - constructor.
  - specialize (Hpush 1000%N (N.le_refl _)). vm_compute in Hpush. discriminate.
Qed.

(** C9 as stated fails on a backup file that holds the same report twice:
    the import puts both in the collection. *)
Lemma import_keeps_duplicates :
  ¬ uniquenessClaim (mount ∅ 0)
      [ImportBackup (Some (JSON.stringify [pfr "A"; pfr "A"])) true].
Proof.
  intros Hc. unfold uniquenessClaim, uniqueIds in Hc.
  assert (Hd : NoDup ["A"; "A"]) by (apply Hc; vm_compute; constructor).
  apply NoDup_cons in Hd as [Hin _]. apply Hin. constructor.
Qed.

(** ** Instances *)

Ltac evaluate := vm_compute; first [done | by apply (bool_decide_unpack _)].

(** C3 on a batch whose second document fails. *)
Lemma ingest_partial_failure_example :
  let res := ingestBatch [scan "a"; blank "x"; scan "b"] (mount stored 0) in
  reports res.1 = [recognised (scan "b"); recognised (scan "a"); pfr "A"; pfr "B"]
  ∧ errorCount res.2 = 1
  ∧ error res.1 = Some "Completed with issues: 2 processed, 1 failed.".
Proof. vm_compute. done. Qed.

Lemma ingest_order_witness :
  let s' := handleFileSelect [scan "a"; scan "b"; scan "c"] (mount stored 0) in
  reports s' = [recognised (scan "c"); recognised (scan "b"); recognised (scan "a")]
               ++ [pfr "A"; pfr "B"]
  ∧ adapterLog s' = [] ++ [Invoke (scan "a"); Settle (scan "a"); Invoke (scan "b");
                           Settle (scan "b"); Invoke (scan "c"); Settle (scan "c")].
Proof.
  exact (ingest_order (scan "a") (scan "b") (scan "c") _ _ _ (mount stored 0)
           eq_refl eq_refl eq_refl).
Defined.

Lemma pull_replaces_collection_witness :
  let s := mount stored 0 in
  let s' := handleServerFetch_resume (Fetched (Some [pfr "C"])) s in
  reports s = [pfr "A"; pfr "B"]
  ∧ reports s' = [pfr "C"]
  ∧ (∀ r, r ∈ reports s' → r ∈ [pfr "C"])
  ∧ localStorage s' !! STORAGE_KEY = Some (JSON_stringify [pfr "C"])
  ∧ syncStatus s' = SyncSynced.
Proof.
  split; [evaluate|].
  apply (pull_replaces_collection (mount stored 0) [pfr "C"]). done.
Defined.

Lemma pull_empty_marks_synced_witness :
  let s := set_clock 2500 (mount stored 0) in
  let s' := handleServerFetch_resume (Fetched (Some [])) s in
  reports s' = reports s
  ∧ localStorage s' = localStorage s
  ∧ syncStatus s' = SyncSynced
  ∧ lastSyncTime s' = Some 2500%N.
Proof.
  apply (pull_empty_marks_synced (set_clock 2500 (mount stored 0)) (Some [])).
  - evaluate.
  - by right.
Defined.

Lemma persistence_round_trip_witness :
  let C := [pfr "A"; pfr "B"] in
  let ls : gmap string string := {[ STORAGE_KEY := "{not json" ]} in
  reports (mount (localStorage (saveCollection C (mount ∅ 0))) 7) = C
  ∧ reports (mount ls 7) = []
  ∧ reports (mount ∅ 7) = [].
Proof.
  cbn zeta. split_and!.
  - apply (persistence_round_trip [pfr "A"; pfr "B"] (mount ∅ 0) ∅ 7).
    + done.
    + split; evaluate.
  - apply (persistence_round_trip [] (mount ∅ 0) {[ STORAGE_KEY := "{not json" ]} 7).
    right. right. exists "{not json". split; evaluate.
  - apply (persistence_round_trip [] (mount ∅ 0) ∅ 7). by left.
Defined.

Lemma debounce_coalesces_witness :
  let s := run (mount stored 0) [FetchSettled (Fetched None)] in
  coalesced s (addRecord (pfr "C"))
    [(300%N, removeRecord "A"); (999%N, addRecord (pfr "D"))].
Proof.
  apply (debounce_coalesces (run (mount stored 0) [FetchSettled (Fetched None)])).
  - evaluate.
  - evaluate.
  - evaluate.
  - repeat constructor.
Defined.

(** What that burst comes to. *)
Lemma debounce_example :
  let s := run (mount stored 0) [FetchSettled (Fetched None)] in
  let s' := burst [(300%N, removeRecord "A"); (999%N, addRecord (pfr "D"))]
              (mutate (addRecord (pfr "C")) s) in
  pushCalls s' = []
  ∧ pushCalls (elapse 1000 s')
    = [{| push_at := 2299; push_url := endpoint;
          push_body := [pfr "D"; pfr "C"; pfr "B"] |}]
  ∧ pushCalls (elapse 86400000 s') = pushCalls (elapse 1000 s').
Proof. vm_compute. done. Qed.

Lemma unique_ids_preserved_witness :
  let es := [FileSelect [scan "a"; blank "x"; scan "b"];
             RemoveReport "pfr-a";
             FetchSettled (Fetched (Some [pfr "C"; pfr "D"]));
             ImportBackup (Some (JSON.stringify [pfr "A"; pfr "B"])) true;
             Elapse 5000] in
  uniqueIds (reports (run (mount stored 0) es)).
Proof.
  apply (unique_ids_preserved _ (mount stored 0)).
  - evaluate.
  - cbn [admissible]. split_and!; evaluate.
Defined.

End Scenarios.

(** * Instances of the further properties *)

Section MoreScenarios.
Local Existing Instance browser.

Ltac compute_it := vm_compute; first [done | by apply (bool_decide_unpack _)].

(** The component after a startup pull that found the server empty: the
    endpoint is configured, the initial load is over, the stored collection
    of two is in place. *)
Definition synced : App := run (mount stored 0) [FetchSettled (Fetched None)].

(** The same with a change just made, its push pending. *)
Definition changed : App := mutate (addRecord (pfr "C")) synced.

(** A browser that holds one report and no endpoint. *)
Definition offline : gmap string string :=
  {[ STORAGE_KEY := JSON.stringify [pfr "A"] ]}.

Lemma nonempty_collection_is_stored_witness :
  let s := run (mount stored 0) [FileSelect [scan "a"]; RemoveReport "A"] in
  localStorage s !! STORAGE_KEY = Some (JSON_stringify (reports s)).
Proof.
  apply (nonempty_collection_is_stored stored 0
           [FileSelect [scan "a"]; RemoveReport "A"]).
  compute_it.
Defined.

Lemma local_session_never_syncs_witness :
  let s := run (mount offline 0)
             [FileSelect [scan "a"; blank "x"]; RemoveReport "A"; UrlChange "";
              ManualSync; ClearAll true; Elapse 5000] in
  serverUrl s = "" ∧ fetchCalls s = [] ∧ pushCalls s = []
  ∧ syncStatus s = SyncIdle ∧ lastSyncTime s = None.
Proof.
  apply (local_session_never_syncs offline 0).
  - compute_it.
  - repeat constructor.
Defined.

Lemma startup_with_endpoint_witness :
  let s := mount stored 0 in
  let es := [RemoveReport "A"; Elapse 5000; FileSelect [scan "a"];
             UrlChange "https://other.example/reports"; ManualSync;
             ClearAll true; Elapse 5000] in
  (serverUrl s = endpoint ∧ fetchCalls s = [endpoint] ∧ pendingFetches s = 1
   ∧ syncStatus s = SyncSyncing)
  ∧ guarded (run s es).
Proof.
  apply (startup_with_endpoint stored 0 endpoint).
  - compute_it.
  - done.
  - repeat constructor.
Defined.

Lemma unreadable_storage_is_kept_witness :
  let ls : gmap string string := {[ STORAGE_KEY := "{not json" ]} in
  localStorage (mount ls 0) = ls
  ∧ console (mount ls 0)
    = ["Failed to load local data SyntaxError: Unexpected token in JSON"].
Proof.
  cbn zeta.
  destruct (unreadable_storage_is_kept {[ STORAGE_KEY := "{not json" ]} 0) as [Hl Hc].
  - right. right. exists "{not json". split; compute_it.
  - split; [exact Hl | by rewrite Hc].
Defined.

Lemma clearing_endpoint_cancels_push_witness :
  let s' := handleUrlChange "" changed in
  (timeoutId changed ≠ None)
  ∧ serverUrl s' = "" ∧ localStorage s' !! SERVER_URL_KEY = Some ""
  ∧ syncStatus s' = SyncIdle ∧ fetchCalls s' = fetchCalls changed
  ∧ timeoutId s' = None ∧ pushCalls (elapse 86400000 s') = pushCalls changed.
Proof.
  split; [compute_it|].
  apply (clearing_endpoint_cancels_push changed 86400000); compute_it.
Defined.

Lemma new_endpoint_receives_local_collection_witness :
  let s := mount offline 0 in
  let s1 := handleUrlChange endpoint s in
  let s2 := handleServerFetch_resume (Fetched None) (elapse 200 s1) in
  fetchCalls s1 = fetchCalls s ++ [endpoint]
  ∧ reports s2 = reports s
  ∧ pushCalls (elapse 800 s2)
    = pushCalls s ++ [{| push_at := (clock s + 1000)%N; push_url := endpoint;
                         push_body := reports s |}].
Proof.
  apply (new_endpoint_receives_local_collection (mount offline 0) endpoint None 200 800).
  - compute_it.
  - compute_it.
  - compute_it.
  - compute_it.
  - by left.
  - done.
  - done.
Defined.

Lemma clear_all_survives_restart_witness :
  let s' := handleClearAll true synced in
  reports synced = [pfr "A"; pfr "B"]
  ∧ reports s' = [] ∧ error s' = None
  ∧ localStorage s' !! STORAGE_KEY = None
  ∧ reports (mount (localStorage s') 9) = [].
Proof.
  split; [compute_it|].
  apply (clear_all_survives_restart synced 9). compute_it.
Defined.

Lemma clear_all_empties_server_witness :
  pushCalls (elapse 1000 (handleClearAll true synced))
  = pushCalls synced ++ [{| push_at := (clock synced + 1000)%N;
                            push_url := serverUrl synced; push_body := [] |}].
Proof.
  apply (clear_all_empties_server synced 1000); compute_it.
Defined.

Lemma push_settles_without_retry_witness :
  let s1 := elapse 1000 changed in
  let s2 := pushSettled false s1 in
  (syncStatus s1 = SyncSyncing ∧ pendingPushes s1 = S (pendingPushes changed))
  ∧ syncStatus s2 = SyncError
  ∧ lastSyncTime s2 = lastSyncTime changed
  ∧ reports s2 = reports changed ∧ localStorage s2 = localStorage changed
  ∧ pushCalls (elapse 86400000 s2) = pushCalls s1.
Proof.
  apply (push_settles_without_retry changed false 1000 86400000).
  - split; compute_it.
  - done.
Defined.

Lemma pull_overrides_pending_change_witness :
  let s1 := elapse 300 (mutate (addRecord (pfr "C")) synced) in
  let s2 := handleServerFetch_resume (Fetched (Some [pfr "D"])) s1 in
  pushCalls s1 = pushCalls synced
  ∧ reports s2 = [pfr "D"]
  ∧ pushCalls (elapse 1000 s2)
    = pushCalls synced ++ [{| push_at := (clock synced + 300 + 1000)%N;
                              push_url := serverUrl synced;
                              push_body := [pfr "D"] |}].
Proof.
  apply (pull_overrides_pending_change synced (addRecord (pfr "C")) [pfr "D"] 300 1000);
    compute_it.
Defined.

Lemma restart_restores_collection_witness :
  let s := run (mount stored 0) [FetchSettled (Fetched None); FileSelect [scan "a"]] in
  reports (mount (localStorage s) 7) = reports s.
Proof.
  apply (restart_restores_collection stored 0 7
           [FetchSettled (Fetched None); FileSelect [scan "a"]]).
  - compute_it.
  - split; compute_it.
Defined.

End MoreScenarios.

End AeroLog.
